(** * magpylib: the vectorised field wrapper [getBHv_level2] and [Collection]

    A shallow embedding of
    - [magpylib/_lib/fields/field_wrap_BH_v.py] (input normalisation, tiling,
      the call of [getBH_level1], the [squeeze] option), and
    - [magpylib/_lib/obj_classes/class_Collection.py] (the source list of a
      Collection and the operations that set, extend and shrink it).

    Python dictionaries with string keys are [gmap string _]; the insertion
    ordered dictionary [tile_params], which the code iterates over, is an
    association list.  Exceptions are a [result] monad; the single outgoing
    call of [getBHv_level2] is recorded in a call log, so that "before
    [getBH_level1] is invoked" is a statement about that log.

    Collections come in two models.  [Collection] holds every source list
    by value, which is what the operations that build a list of their own
    need.  [CollectionRef] holds the list objects by address, as [copy]
    needs: a copy is bound to the list of its original; it also has the
    methods that call every source in turn.  Without [copy] the two agree
    ([by_value_agrees]). *)

From Stdlib Require Import Floats.
From stdpp Require Import functions gmap strings list fin_maps.

Open Scope float_scope.
Open Scope nat_scope.

(** ** Exceptions *)

(** The two messages [getBHv_level2] formats.  The payload is what the
    f-string interpolates:
    [f'Missing input keys: {str(kerr)}'] and
    [f'getBHv() bad array input lengths: {str(set(ns))}']. *)
Inductive msg : Type :=
| Missing_input_keys (kerr : string)
| bad_array_input_lengths (ns : gset nat).

Inductive exn : Type :=
| KeyError (key : string)
| MagpylibBadUserInput (m : msg)
| TypeError
| ValueError
| AttributeError
| OtherError (name : string).

Inductive result (A : Type) : Type :=
| Ok (a : A)
| Raise (e : exn).
Arguments Ok {A} a.
Arguments Raise {A} e.

#[export] Instance result_ret : MRet result := fun _ a => Ok a.
#[export] Instance result_bind : MBind result := fun _ _ f m =>
  match m with Ok a => f a | Raise e => Raise e end.
#[export] Instance result_fmap : FMap result := fun _ _ f m =>
  match m with Ok a => Ok (f a) | Raise e => Raise e end.

(** ** numpy arrays of dtype float: a shape and a flat, row-major buffer *)

Record ndarray : Type := NDArray { shape : list nat; data : list float }.

Definition ndim (a : ndarray) : nat := length (shape a).

(** Number of elements a shape holds. *)
Definition numel (s : list nat) : nat := foldr Nat.mul 1 s.


(** [len(a)]: the leading dimension; a 0-d array is unsized. *)
Definition len (a : ndarray) : result nat :=
  match shape a with
  | [] => Raise TypeError
  | n :: _ => Ok n
  end.

(** [a[i]] for [0 <= i]: the i-th entry along the leading axis
    ([None] stands for IndexError). *)
Definition row (a : ndarray) (i : nat) : option ndarray :=
  match shape a with
  | [] => None
  | n :: s =>
      if decide (i < n)
      then Some (NDArray s (take (numel s) (drop (i * numel s) (data a))))
      else None
  end.

(** [n] copies of a buffer, one after the other. *)
Definition repeat_data (n : nat) (d : list float) : list float :=
  mjoin (replicate n d).

(** [m] consecutive chunks of [k] elements. *)
Fixpoint chunks (k m : nat) (d : list float) : list (list float) :=
  match m with
  | 0 => []
  | S m' => take k d :: chunks k m' (drop k d)
  end.

(** [np.tile(val, (n, 1))].  numpy first promotes [val] to at least two
    axes by prepending axes of length 1, then repeats it [n] times along
    the last but one axis. *)
Definition np_tile (val : ndarray) (n : nat) : ndarray :=
  match reverse (shape val) with
  | [] => NDArray [n; 1] (repeat_data n (data val))
  | [k] => NDArray [n; k] (repeat_data n (data val))
  | b :: a :: outer =>
      NDArray (reverse outer ++ [n * a; b])
              (mjoin (repeat_data n <$> chunks (a * b) (numel outer) (data val)))
  end.

(** [np.array([val]*n)]: [n] copies of [val] stacked along a new leading
    axis; the empty list gives an empty 1-d array. *)
Definition np_array_repeat (val : ndarray) (n : nat) : ndarray :=
  match n with
  | 0 => NDArray [0] []
  | _ => NDArray (n :: shape val) (repeat_data n (data val))
  end.

(** [np.squeeze(B)]: drop every axis of length 1, keep the buffer. *)
Definition np_squeeze (B : ndarray) : ndarray :=
  NDArray (filter (fun d => d ≠ 1) (shape B)) (data B).

(** [max(ns, default=d)]. *)
Definition py_max (ns : list nat) (d : nat) : nat :=
  match ns with
  | [] => d
  | x :: l => foldl Nat.max x l
  end.

(** ** scipy Rotation objects

    A Rotation holds one quaternion or a sequence of them (scalar last);
    [as_quat] returns shape (4,) in the first case and (N,4) in the second,
    [from_quat] accepts exactly these two shapes.  [from_quat] normalises:
    it divides every quaternion by its norm, in binary64, so the quaternions
    a Rotation holds need not be, bit for bit, the ones it was made from.
    (For a norm of zero scipy's [from_quat] raises ValueError.  The wrapper
    applies it, at line 117, only to quaternions taken out of a Rotation,
    which were normalised when that Rotation was made, so the case cannot
    arise there: [from_quat] below does not raise for it, and a [Rotation]
    with a quaternion of norm zero, which scipy cannot hold, stands for no
    object of the program.) *)

Record quat : Type := Quat { qx : float; qy : float; qz : float; qw : float }.

Definition norm4 (q : quat) : float :=
  PrimFloat.sqrt (qx q * qx q + qy q * qy q + qz q * qz q + qw q * qw q)%float.

Definition normalize4 (q : quat) : quat :=
  let norm := norm4 q in
  Quat (qx q / norm) (qy q / norm) (qz q / norm) (qw q / norm).

Inductive Rotation : Type :=
| RotSingle (q : quat)
| RotMany (qs : list quat).

Definition quat_data (q : quat) : list float := [qx q; qy q; qz q; qw q].

Fixpoint quat_rows (d : list float) : list quat :=
  match d with
  | x :: y :: z :: w :: d' => Quat x y z w :: quat_rows d'
  | _ => []
  end.

Definition as_quat (r : Rotation) : ndarray :=
  match r with
  | RotSingle q => NDArray [4] (quat_data q)
  | RotMany qs => NDArray [length qs; 4] (qs ≫= quat_data)
  end.

Definition from_quat (a : ndarray) : result Rotation :=
  match shape a with
  | [k] =>
      match data a with
      | [x; y; z; w] =>
          if decide (k = 4) then Ok (RotSingle (normalize4 (Quat x y z w)))
          else Raise ValueError
      | _ => Raise ValueError
      end
  | [_; k] =>
      if decide (k = 4) then Ok (RotMany (normalize4 <$> quat_rows (data a)))
      else Raise ValueError
  | _ => Raise ValueError
  end.

(** ** Keyword arguments *)

(** What a caller passes under a key: a string ([source_type]), an array
    ([observer], [position], the source parameters), a Rotation
    ([orientation]) or a bool ([squeeze], [bh]). *)
Inductive value : Type :=
| VStr (s : string)
| VArr (a : ndarray)
| VRot (r : Rotation)
| VBool (b : bool).

(** [kwargs[key]] *)
Definition getitem (kwargs : gmap string value) (key : string) : result value :=
  match kwargs !! key with
  | Some v => Ok v
  | None => Raise (KeyError key)
  end.

(** [kwargs.get(key, dflt)] *)
Definition get (kwargs : gmap string value) (key : string) (dflt : value) : value :=
  default dflt (kwargs !! key).

(** [np.array(v, dtype=float)].  An array is copied, a bool becomes a 0-d
    array; a string or a Rotation is no array_like of numbers, numpy raises
    (an exception other than KeyError). *)
Definition np_array (v : value) : result ndarray :=
  match v with
  | VArr a => Ok a
  | VBool b => Ok (NDArray [] [if b then 1%float else 0%float])
  | VStr _ => Raise ValueError
  | VRot _ => Raise TypeError
  end.

(** [rot.as_quat()]: only a Rotation has the method. *)
Definition call_as_quat (rot : value) : result ndarray :=
  match rot with
  | VRot r => Ok (as_quat r)
  | _ => Raise AttributeError
  end.

(** [R.from_quat(v)] *)
Definition R_from_quat (v : value) : result Rotation :=
  a ← np_array v; from_quat a.

(** [src_type == tag]: a value that is no string differs from every tag. *)
Definition py_eq (src_type : value) (tag : string) : bool :=
  match src_type with
  | VStr s => String.eqb s tag
  | _ => false
  end.

(** Truth value of [squeeze] in [if squeeze:].  Besides bools: a string is
    true when non-empty; an array of one element is true when the element
    is non-zero, an empty one is false, a larger one raises; the truth
    value of a Rotation depends on the scipy release and is treated as an
    error. *)
Definition truthy (v : value) : result bool :=
  match v with
  | VBool b => Ok b
  | VStr s => Ok (negb (String.eqb s ""))
  | VArr a =>
      match data a with
      | [] => Ok false
      | [x] => Ok (negb (PrimFloat.eqb x 0%float))
      | _ => Raise ValueError
      end
  | VRot _ => Raise TypeError
  end.

(** ** The dictionary [tile_params]: key -> (input, tdim), insertion ordered *)

Abbreviation tile_dict := (list (string * (ndarray * nat))).

(** [tile_params[key] = entry] *)
Fixpoint setitem (tile_params : tile_dict) (key : string) (entry : ndarray * nat)
  : tile_dict :=
  match tile_params with
  | [] => [(key, entry)]
  | (k, e) :: rest =>
      if String.eqb k key then (k, entry) :: rest
      else (k, e) :: setitem rest key entry
  end.

(** The defaults of the optional inputs: [(0,0,0)] and
    [R.from_quat((0,0,0,1))]. *)
Definition origin : ndarray := NDArray [3] [0%float; 0%float; 0%float].
Definition unit_quat : quat := Quat 0 0 0 1.
Definition unit_rotation : Rotation := RotSingle unit_quat.

(** [np.array(kwargs[key], dtype=float)] *)
Definition array_input (kwargs : gmap string value) (key : string) : result ndarray :=
  v ← getitem kwargs key; np_array v.

(** Lines 57-91: the mandatory inputs of the source type.  There is no
    final [else]: any other [source_type] adds nothing and raises nothing. *)
Definition class_inputs (kwargs : gmap string value) (src_type : value)
    (tile_params : tile_dict) : result tile_dict :=
  if py_eq src_type "Box" then
    mag ← array_input kwargs "magnetization";
    let tile_params := setitem tile_params "magnetization" (mag, 2) in
    dim ← array_input kwargs "dimension";
    Ok (setitem tile_params "dimension" (dim, 2))
  else if py_eq src_type "Cylinder" then
    mag ← array_input kwargs "magnetization";
    let tile_params := setitem tile_params "magnetization" (mag, 2) in
    dim ← array_input kwargs "dimension";
    Ok (setitem tile_params "dimension" (dim, 2))
  else if py_eq src_type "Sphere" then
    mag ← array_input kwargs "magnetization";
    let tile_params := setitem tile_params "magnetization" (mag, 2) in
    dia ← array_input kwargs "diameter";
    Ok (setitem tile_params "diameter" (dia, 1))
  else if py_eq src_type "Dipole" then
    moment ← array_input kwargs "moment";
    Ok (setitem tile_params "moment" (moment, 2))
  else if py_eq src_type "Circular" then
    current ← array_input kwargs "current";
    let tile_params := setitem tile_params "current" (current, 1) in
    dia ← array_input kwargs "diameter";
    Ok (setitem tile_params "diameter" (dia, 1))
  else if py_eq src_type "Line" then
    current ← array_input kwargs "current";
    let tile_params := setitem tile_params "current" (current, 1) in
    pos_start ← array_input kwargs "segment_start";
    let tile_params := setitem tile_params "segment_start" (pos_start, 2) in
    pos_end ← array_input kwargs "segment_end";
    Ok (setitem tile_params "segment_end" (pos_end, 2))
  else Ok tile_params.

(** Lines 41-91, the body of the [try]. *)
Definition try_body (kwargs : gmap string value) : result (tile_dict * value) :=
  src_type ← getitem kwargs "source_type";
  poso ← array_input kwargs "observer";
  let tile_params := setitem [] "observer" (poso, 2) in
  pos ← np_array (get kwargs "position" (VArr origin));
  let tile_params := setitem tile_params "position" (pos, 2) in
  let rot := get kwargs "orientation" (VRot unit_rotation) in
  q ← call_as_quat rot;
  let tile_params := setitem tile_params "orientation" (q, 2) in
  let squeeze := get kwargs "squeeze" (VBool true) in
  tile_params ← class_inputs kwargs src_type tile_params;
  Ok (tile_params, squeeze).

(** Lines 41-95: [try: ... except KeyError as kerr: raise
    MagpylibBadUserInput(msg) from kerr]. *)
Definition try_block (kwargs : gmap string value) : result (tile_dict * value) :=
  match try_body kwargs with
  | Raise (KeyError kerr) => Raise (MagpylibBadUserInput (Missing_input_keys kerr))
  | r => r
  end.

(** Line 100: [[len(val) for val,tdim in tile_params.values() if val.ndim == tdim]] *)
Fixpoint lengths (values : list (ndarray * nat)) : result (list nat) :=
  match values with
  | [] => Ok []
  | (val, tdim) :: rest =>
      if decide (ndim val = tdim)
      then n ← len val; ns ← lengths rest; Ok (n :: ns)
      else lengths rest
  end.

(** Lines 107-114, one round of the loop. *)
Definition tile_step (n : nat) (kwargs : gmap string value)
    (item : string * (ndarray * nat)) : gmap string value :=
  let '(key, (val, tdim)) := item in
  if decide (ndim val < tdim) then
    if decide (tdim = 2) then <[key := VArr (np_tile val n)]> kwargs
    else if decide (tdim = 1) then <[key := VArr (np_array_repeat val n)]> kwargs
    else kwargs
  else <[key := VArr val]> kwargs.

Definition tile_loop (n : nat) (tile_params : tile_dict)
    (kwargs : gmap string value) : gmap string value :=
  foldl (tile_step n) kwargs tile_params.

(** ** Computations that may call [getBH_level1]

    A computation yields the list of keyword dictionaries it has passed to
    [getBH_level1] so far, and a result or the exception that ended it. *)
Record Run (A : Type) : Type :=
  MkRun { calls : list (gmap string value); outcome : result A }.
Arguments MkRun {A} calls outcome.
Arguments calls {A} r.
Arguments outcome {A} r.

Definition run_lift {A} (r : result A) : Run A := MkRun [] r.
Definition run_raise {A} (e : exn) : Run A := run_lift (Raise e).

#[export] Instance run_ret : MRet Run := fun _ a => run_lift (Ok a).
#[export] Instance run_bind : MBind Run := fun _ _ f m =>
  match outcome m with
  | Ok a => MkRun (calls m ++ calls (f a)) (outcome (f a))
  | Raise e => MkRun (calls m) (Raise e)
  end.

Section getBHv.

(** [getBH_level1] lives in [field_wrap_BH_level1.py]: it receives the
    normalised keyword arguments and returns the field array or raises. *)
Variable getBH_level1 : gmap string value → result ndarray.

Definition call_getBH_level1 (kwargs : gmap string value) : Run ndarray :=
  MkRun [kwargs] (getBH_level1 kwargs).

Definition getBHv_level2 (kwargs : gmap string value) : Run ndarray :=
  '(tile_params, squeeze) ← run_lift (try_block kwargs);
  (* evaluation vector length *)
  ns ← run_lift (lengths tile_params.*2);
  if decide (1 < size (list_to_set ns : gset nat)) then
    run_raise (MagpylibBadUserInput (bad_array_input_lengths (list_to_set ns)))
  else
  let n := py_max ns 1 in
  (* tile 1D inputs and replace original values in kwargs *)
  let kwargs := tile_loop n tile_params kwargs in
  (* change rot to Rotation object *)
  v ← run_lift (getitem kwargs "orientation");
  rot ← run_lift (R_from_quat v);
  let kwargs := <["orientation" := VRot rot]> kwargs in
  (* compute and return B *)
  B ← call_getBH_level1 kwargs;
  b ← run_lift (truthy squeeze);
  mret (if (b : bool) then np_squeeze B else B).

(** [getBHv_level2(bh=flag, **kwargs)]: a [bh] among the caller's keywords
    is a duplicate keyword argument. *)
Definition call_with_bh (flag : bool) (kwargs : gmap string value) : Run ndarray :=
  match kwargs !! "bh" with
  | Some _ => run_raise TypeError
  | None => getBHv_level2 (<["bh" := VBool flag]> kwargs)
  end.

Definition getBv (kwargs : gmap string value) : Run ndarray := call_with_bh true kwargs.
Definition getHv (kwargs : gmap string value) : Run ndarray := call_with_bh false kwargs.

End getBHv.

(** The six supported source types. *)
Definition source_types : list string :=
  ["Box"; "Cylinder"; "Sphere"; "Dipole"; "Circular"; "Line"].

(** * Collection *)

#[local] Set Warnings "-register-all".

Module Collection.

(** A magpylib object as far as a Collection looks at it: its identity (two
    instances are equal only when they are the same object) and its
    [object_type] attribute. *)
Record obj : Type := Obj { obj_id : nat; object_type : string }.

#[export] Instance obj_eq_dec : EqDecision obj.
Proof. solve_decision. Defined.

(** A Collection instance: its [_sources] attribute. *)
Record instance : Type := Instance_ { _sources : list obj }.

(** The Collections alive, by reference.  Every operation below binds
    [_sources] to a list of its own (a concatenation, a filtered or a
    formatted list), so no two instances share a list object and a list is
    stored by value. *)
Abbreviation heap := (gmap nat instance).

(** What may be passed where sources are expected: "source objects,
    Collections or arbitrary lists thereof". *)
Inductive input : Type :=
| Source (o : obj)
| Coll (c : nat)
| Seq (l : list input).

(** Modelled from the spec: [format_obj_input] of [magpylib._lib.utility] is
    not among the source files.  It "formats" the input: sources,
    Collections and nested lists are flattened into one list of objects, in
    order; which object types a Collection may hold is decided by
    [only_allowed_src_types], not here. *)
Fixpoint format_input (h : heap) (i : input) : list obj :=
  match i with
  | Source o => [o]
  | Coll c => default [] (_sources <$> h !! c)
  | Seq l => l ≫= format_input h
  end.

Definition format_obj_input (h : heap) (objects : list input) : list obj :=
  objects ≫= format_input h.

(** Modelled from the spec: [check_duplicates] of [magpylib._lib.utility] is
    not among the source files ("check and eliminate duplicates", "no
    duplicate source instances"): every object is kept once, at its first
    position. *)
Definition keep_new (seen : list obj) (s : obj) : list obj :=
  if decide (s ∈ seen) then seen else seen ++ [s].

Definition check_duplicates (src_list : list obj) : list obj :=
  foldl keep_new [] src_list.

(** Modelled from the spec: [only_allowed_src_types] of
    [magpylib._lib.utility] is not among the source files ("allow only
    designated source types in Collection", "only supported source types"):
    the objects of a supported source type are kept. *)
Definition only_allowed_src_types (src_list : list obj) : list obj :=
  filter (λ s, object_type s ∈ source_types) src_list.

(** [self.sources = sources], the property setter. *)
Definition set_sources (self : nat) (sources : list input) (h : heap) : heap :=
  (* format input *)
  let src_list := format_obj_input h sources in
  (* check and eliminate duplicates *)
  let src_list := check_duplicates src_list in
  (* allow only designated source types in Collection *)
  let src_list := only_allowed_src_types src_list in
  (* set attributes *)
  <[self := Instance_ src_list]> h.

(** [Collection(s1, s2, ...)]: a new object, whose sources are set through
    the property. *)
Definition __init__ (sources : list input) (h : heap) : nat * heap :=
  let self := fresh (dom h) in
  (self, set_sources self sources h).

(** [self.sources], the property getter. *)
Definition sources (self : nat) (h : heap) : result (list obj) :=
  match h !! self with
  | Some c => Ok (_sources c)
  | None => Raise AttributeError
  end.

(** [self.add(s1, s2, ...)] *)
Definition add (self : nat) (sources : list input) (h : heap) : result nat * heap :=
  match h !! self with
  | None => (Raise AttributeError, h)
  | Some c =>
      (* format input *)
      let src_list := format_obj_input h sources in
      (* combine with original src_list *)
      let src_list := _sources c ++ src_list in
      (* check and eliminate duplicates *)
      let src_list := check_duplicates src_list in
      (* set attributes *)
      (Ok self, <[self := Instance_ src_list]> h)
  end.

(** [l.remove(x)] of a Python list: the first occurrence goes; [None] is
    the ValueError raised when there is none. *)
Fixpoint list_remove (x : obj) (l : list obj) : option (list obj) :=
  match l with
  | [] => None
  | y :: l' => if decide (y = x) then Some l' else (y ::.) <$> list_remove x l'
  end.

(** [self.remove(source)] *)
Definition remove (self : nat) (source : obj) (h : heap) : result nat * heap :=
  match h !! self with
  | None => (Raise AttributeError, h)
  | Some c =>
      match list_remove source (_sources c) with
      | Some l => (Ok self, <[self := Instance_ l]> h)
      | None => (Raise ValueError, h)
      end
  end.

(** [self + source]: [self.add(source); return self] *)
Definition __add__ (self : nat) (source : input) (h : heap) : result nat * heap :=
  match add self [source] h with
  | (Ok _, h') => (Ok self, h')
  | r => r
  end.

(** [self - source]: [self.remove(source); return self] *)
Definition __sub__ (self : nat) (source : obj) (h : heap) : result nat * heap :=
  match remove self source h with
  | (Ok _, h') => (Ok self, h')
  | r => r
  end.

(** [list(self)] and [self[i]] for [0 <= i] *)
Definition __iter__ (self : nat) (h : heap) : result (list obj) := sources self h.

Definition __getitem__ (self : nat) (i : nat) (h : heap) : result obj :=
  match h !! self with
  | None => Raise AttributeError
  | Some c =>
      match _sources c !! i with
      | Some s => Ok s
      | None => Raise (OtherError "IndexError")
      end
  end.

End Collection.

(** * Collection objects by reference

    [copy.copy(self)] gives a new Collection whose attributes are bound to
    the objects the attributes of [self] are bound to: the copy and the
    original share one list object, until one of them binds [_sources]
    anew.  So here a Collection holds the address of its list, and
    [remove], which changes the list in place, is told apart from the
    setter and [add], which bind a new list.  (The classes a Collection
    inherits from are taken not to define a copy of their own.) *)

(** Python values a Collection only passes on to its sources. *)
Inductive pyval : Type :=
| PyNone
| PyBool (b : bool)
| PyInt (z : Z)
| PyStr (s : string)
| PyArr (a : ndarray)
| PyRot (r : Rotation).

Module CollectionRef.

(** A Collection instance: its [_sources] attribute, bound to a list object
    (its address). *)
Record instance : Type := Instance_ { _sources : nat }.

(** The objects alive: the list objects by address, the Collection
    instances by reference. *)
Record store : Type :=
  Store { lists : gmap nat (list Collection.obj); instances : gmap nat instance }.

(** The list [self._sources] is bound to. *)
Definition sources_list (self : nat) (st : store) : option (list Collection.obj) :=
  c ← instances st !! self; lists st !! _sources c.

(** The Collections as [format_obj_input] reads them: each with the value
    of its list. *)
Definition heap_of (st : store) : Collection.heap :=
  omap (λ c, Collection.Instance_ <$> lists st !! _sources c) (instances st).

(** A new list object. *)
Definition new_list (l : list Collection.obj) (st : store) : nat * store :=
  let a := fresh (dom (lists st)) in
  (a, Store (<[a := l]> (lists st)) (instances st)).

(** [self._sources = src_list] *)
Definition bind_sources (self : nat) (a : nat) (st : store) : store :=
  Store (lists st) (<[self := Instance_ a]> (instances st)).

(** [self.sources = sources], the property setter.  The list the three
    functions hand back is taken to be a list of its own, as in
    [Collection]. *)
Definition set_sources (self : nat) (sources : list Collection.input) (st : store) : store :=
  (* format input *)
  let src_list := Collection.format_obj_input (heap_of st) sources in
  (* check and eliminate duplicates *)
  let src_list := Collection.check_duplicates src_list in
  (* allow only designated source types in Collection *)
  let src_list := Collection.only_allowed_src_types src_list in
  (* set attributes *)
  let '(a, st) := new_list src_list st in
  bind_sources self a st.

(** [Collection(s1, s2, ...)] *)
Definition __init__ (sources : list Collection.input) (st : store) : nat * store :=
  let self := fresh (dom (instances st)) in
  (self, set_sources self sources st).

(** [self.sources], the property getter. *)
Definition sources (self : nat) (st : store) : result (list Collection.obj) :=
  match sources_list self st with
  | Some l => Ok l
  | None => Raise AttributeError
  end.

(** [self.add(s1, s2, ...)]: [self._sources + src_list] is a new list. *)
Definition add (self : nat) (sources : list Collection.input) (st : store)
  : result nat * store :=
  match sources_list self st with
  | None => (Raise AttributeError, st)
  | Some l =>
      (* format input *)
      let src_list := Collection.format_obj_input (heap_of st) sources in
      (* combine with original src_list *)
      let src_list := l ++ src_list in
      (* check and eliminate duplicates *)
      let src_list := Collection.check_duplicates src_list in
      (* set attributes *)
      let '(a, st) := new_list src_list st in
      (Ok self, bind_sources self a st)
  end.

(** [self.remove(source)]: [self._sources.remove(source)] changes the list
    object itself. *)
Definition remove (self : nat) (source : Collection.obj) (st : store)
  : result nat * store :=
  match instances st !! self with
  | None => (Raise AttributeError, st)
  | Some c =>
      match lists st !! _sources c with
      | None => (Raise AttributeError, st)
      | Some l =>
          match Collection.list_remove source l with
          | Some l' => (Ok self, Store (<[_sources c := l']> (lists st)) (instances st))
          | None => (Raise ValueError, st)
          end
      end
  end.

(** [self + source] and [self - source] *)
Definition __add__ (self : nat) (source : Collection.input) (st : store)
  : result nat * store :=
  match add self [source] st with
  | (Ok _, st') => (Ok self, st')
  | r => r
  end.

Definition __sub__ (self : nat) (source : Collection.obj) (st : store)
  : result nat * store :=
  match remove self source st with
  | (Ok _, st') => (Ok self, st')
  | r => r
  end.

(** [self.copy()]: [copy.copy(self)] makes a new instance with the same
    attributes, bound to the same objects. *)
Definition copy (self : nat) (st : store) : result nat * store :=
  match instances st !! self with
  | None => (Raise AttributeError, st)
  | Some c =>
      let new := fresh (dom (instances st)) in
      (Ok new, Store (lists st) (<[new := c]> (instances st)))
  end.

(** The operations on Collections, for statements about sequences of them. *)
Inductive op : Type :=
| New (sources : list Collection.input)
| SetSources (c : nat) (sources : list Collection.input)
| Add (c : nat) (sources : list Collection.input)
| Remove (c : nat) (source : Collection.obj)
| Plus (c : nat) (source : Collection.input)
| Minus (c : nat) (source : Collection.obj)
| Copy (c : nat).

Definition step (st : store) (o : op) : store :=
  match o with
  | New sources => (__init__ sources st).2
  | SetSources c sources => set_sources c sources st
  | Add c sources => (add c sources st).2
  | Remove c source => (remove c source st).2
  | Plus c source => (__add__ c source st).2
  | Minus c source => (__sub__ c source st).2
  | Copy c => (copy c st).2
  end.

Definition run (ops : list op) : store := foldl step (Store ∅ ∅) ops.

(** The Collection an operation is called on, or the one it creates. *)
Definition target (st : store) (o : op) : nat :=
  match o with
  | New _ | Copy _ => fresh (dom (instances st))
  | SetSources c _ | Add c _ | Remove c _ | Plus c _ | Minus c _ => c
  end.

Definition is_copy (o : op) : bool :=
  match o with Copy _ => true | _ => false end.

#[local] Existing Instance Collection.obj_eq_dec.

Section path_methods.

(** What a source object holds besides its identity (its path), and the
    calls a Collection makes on its sources. *)
Variable state : Type.

Inductive method_call : Type :=
| s_move (displacement start increment : pyval)
| s_rotate (rot anchor start increment : pyval)
| s_rotate_from_angax (angle axis anchor start increment degree : pyval)
| s_reset_path.

(** The methods themselves belong to the source classes: a call works on
    the state of the object it is called on; it returns, or it raises, and
    then what it had done to the object until then stays. *)
Variable call : Collection.obj → method_call → state → result unit * state.

(** [for s in self: s.method(...)].  [__iter__] yields from the list
    [_sources] is bound to; the methods of a source do not reach the
    Collection, so the list is the same throughout the loop. *)
Fixpoint for_sources (l : list Collection.obj) (m : method_call)
    (w : Collection.obj → state) : result unit * (Collection.obj → state) :=
  match l with
  | [] => (Ok (), w)
  | s :: l' =>
      let '(r, x) := call s m (w s) in
      let w := <[s := x]> w in
      match r with
      | Ok _ => for_sources l' m w
      | Raise e => (Raise e, w)
      end
  end.

(** [for s in self: s.method(...)], then [return self] *)
Definition for_self (self : nat) (m : method_call) (st : store)
    (w : Collection.obj → state) : result nat * (Collection.obj → state) :=
  match sources_list self st with
  | None => (Raise AttributeError, w)
  | Some l =>
      match for_sources l m w with
      | (Ok _, w) => (Ok self, w)
      | (Raise e, w) => (Raise e, w)
      end
  end.

(** [self.move(displacement, start=-1, increment=False)] *)
Definition move (self : nat) (displacement : pyval) (start increment : option pyval) :=
  let start := default (PyInt (-1)) start in
  let increment := default (PyBool false) increment in
  for_self self (s_move displacement start increment).

(** [self.rotate(rot, anchor=None, start=-1, increment=False)] *)
Definition rotate (self : nat) (rot : pyval) (anchor start increment : option pyval) :=
  let anchor := default PyNone anchor in
  let start := default (PyInt (-1)) start in
  let increment := default (PyBool false) increment in
  for_self self (s_rotate rot anchor start increment).

(** [self.rotate_from_angax(angle, axis, anchor=None, start=-1,
    increment=False, degree=True)] *)
Definition rotate_from_angax (self : nat) (angle axis : pyval)
    (anchor start increment degree : option pyval) :=
  let anchor := default PyNone anchor in
  let start := default (PyInt (-1)) start in
  let increment := default (PyBool false) increment in
  let degree := default (PyBool true) degree in
  for_self self (s_rotate_from_angax angle axis anchor start increment degree).

(** [self.reset_path()] *)
Definition reset_path (self : nat) := for_self self s_reset_path.

End path_methods.

End CollectionRef.

(** * Vocabulary of the statements *)

(** Leading dimension of an array that has one. *)
Definition leading (a : ndarray) : nat := hd 0 (shape a).

(** An explicit-batch input: its rank equals its declared rank. *)
Definition explicit_batch (e : ndarray * nat) : Prop := ndim e.1 = e.2.

#[export] Instance explicit_batch_dec e : Decision (explicit_batch e).
Proof. unfold explicit_batch. apply _. Defined.

(** The lengths of the explicit-batch inputs, as a plain list. *)
Definition batch_lengths (values : list (ndarray * nat)) : list nat :=
  (leading ∘ fst) <$> filter explicit_batch values.

(** The inferred batch length N. *)
Definition batch_length (tile_params : tile_dict) : nat :=
  py_max (batch_lengths tile_params.*2) 1.

(** The declared ranks the code uses. *)
Definition declared_rank (tdim : nat) : Prop := tdim = 1 ∨ tdim = 2.

(** What the tiling loop stores for an entry [(val, tdim)] with [tdim] 1 or 2. *)
Definition tiled (n : nat) (val : ndarray) (tdim : nat) : ndarray :=
  if decide (ndim val < tdim) then
    if decide (tdim = 2) then np_tile val n else np_array_repeat val n
  else val.

(** What line 117 makes of the tiled quaternions of [rot]. *)
Definition tiled_rotation (n : nat) (rot : Rotation) : Rotation :=
  match rot with
  | RotSingle q => RotMany (replicate n (normalize4 q))
  | RotMany qs => RotMany (normalize4 <$> qs)
  end.

(** The keyword arguments handed to [getBH_level1]: every registered input
    replaced by its tiled array, [orientation] turned back into a Rotation. *)
Definition normalised (n : nat) (tile_params : tile_dict) (rot : Rotation)
    (kwargs : gmap string value) : gmap string value :=
  <["orientation" := VRot (tiled_rotation n rot)]> (tile_loop n tile_params kwargs).

(** What follows the call of [getBH_level1]: its exception propagates, its
    array is squeezed when [squeeze] is true. *)
Definition field_of (getBH_level1 : gmap string value → result ndarray)
    (kwargs' : gmap string value) (squeeze : value) : result ndarray :=
  B ← getBH_level1 kwargs'; b ← truthy squeeze; Ok (if (b : bool) then np_squeeze B else B).

(** The entries every call registers, and the keys of the source
    parameters. *)
Definition general_entries (poso pos q : ndarray) : tile_dict :=
  [("observer", (poso, 2)); ("position", (pos, 2)); ("orientation", (q, 2))].

Definition class_keys : list string :=
  ["magnetization"; "dimension"; "diameter"; "moment"; "current";
   "segment_start"; "segment_end"].

(** Entries registered for the source type: read from [kwargs] under one of
    the class keys, with declared rank 1 or 2, no key twice. *)
Definition class_entries (kwargs : gmap string value) (extra : tile_dict) : Prop :=
  Forall (λ e, e.1 ∈ class_keys ∧ declared_rank e.2.2 ∧ array_input kwargs e.1 = Ok e.2.1) extra
  ∧ NoDup extra.*1.

(** The keys the [try] body reads with [kwargs[key]]. *)
Definition indexed_keys : list string := "source_type" :: "observer" :: class_keys.

(** The documented kinds of the inputs: [source_type] is a string, the
    observer, the position and the source parameters are arrays,
    [orientation] is a Rotation. *)
Definition array_keys : list string := "observer" :: "position" :: class_keys.

Definition well_typed (key : string) (v : value) : bool :=
  if decide (key = "source_type") then match v with VStr _ => true | _ => false end
  else if decide (key ∈ array_keys) then match v with VArr _ => true | _ => false end
  else if decide (key = "orientation") then match v with VRot _ => true | _ => false end
  else true.

Definition kwargs_typed (kwargs : gmap string value) : Prop :=
  map_Forall (λ key v, well_typed key v = true) kwargs.

(** The mandatory parameters of each source type (the table of the kernels). *)
Definition required_parameters (tag : string) : list string :=
  if decide (tag = "Box") then ["magnetization"; "dimension"]
  else if decide (tag = "Cylinder") then ["magnetization"; "dimension"]
  else if decide (tag = "Sphere") then ["magnetization"; "diameter"]
  else if decide (tag = "Dipole") then ["moment"]
  else if decide (tag = "Circular") then ["current"; "diameter"]
  else if decide (tag = "Line") then ["current"; "segment_start"; "segment_end"]
  else [].

Definition mandatory_keys (kwargs : gmap string value) : list string :=
  "source_type" :: "observer" ::
  match kwargs !! "source_type" with
  | Some (VStr tag) => required_parameters tag
  | _ => []
  end.

(** The first mandatory key, in the order the [try] body reads them, that
    the call lacks. *)
Definition first_missing (kwargs : gmap string value) : option string :=
  head (filter (λ k, kwargs !! k = None) (mandatory_keys kwargs)).



(** No list object holds an object twice. *)
Definition lists_NoDup (st : CollectionRef.store) : Prop :=
  map_Forall (λ _ l, NoDup l) (CollectionRef.lists st).

(** No two Collections are bound to the same list object, and every
    Collection's list exists. *)
Definition unshared (st : CollectionRef.store) : Prop :=
  (∀ c i, CollectionRef.instances st !! c = Some i →
          is_Some (CollectionRef.lists st !! CollectionRef._sources i)) ∧
  (∀ c1 c2 i1 i2,
     CollectionRef.instances st !! c1 = Some i1 →
     CollectionRef.instances st !! c2 = Some i2 →
     CollectionRef._sources i1 = CollectionRef._sources i2 → c1 = c2).

(** The outcome [r] of a loop that calls [m] on the sources [l] in order,
    from the states [w]: the sources [visited] were updated, each by one call
    that returned; the call on the next one, if there is one, raised, and
    the loop ended there; every other object is as it was. *)
Definition applied_in_order {state A}
    (call : Collection.obj → CollectionRef.method_call → state → result unit * state)
    (m : CollectionRef.method_call) (l : list Collection.obj)
    (w : Collection.obj → state) (ret : A)
    (r : result A * (Collection.obj → state)) : Prop :=
  ∃ visited rest, l = visited ++ rest ∧
    (∀ s, s ∈ visited → ∃ x, call s m (w s) = (Ok (), x) ∧ r.2 s = x) ∧
    (∀ s, s ∉ visited → head rest ≠ Some s → r.2 s = w s) ∧
    match rest with
    | [] => r.1 = Ok ret
    | s :: _ => ∃ e x, call s m (w s) = (Raise e, x) ∧ r.1 = Raise e ∧ r.2 s = x
    end.

(** The operations of [CollectionRef] on the heap that holds the lists by
    value; [copy] has no counterpart there. *)
Definition step_by_value (h : Collection.heap) (o : CollectionRef.op) : Collection.heap :=
  match o with
  | CollectionRef.New sources => (Collection.__init__ sources h).2
  | CollectionRef.SetSources c sources => Collection.set_sources c sources h
  | CollectionRef.Add c sources => (Collection.add c sources h).2
  | CollectionRef.Remove c source => (Collection.remove c source h).2
  | CollectionRef.Plus c source => (Collection.__add__ c source h).2
  | CollectionRef.Minus c source => (Collection.__sub__ c source h).2
  | CollectionRef.Copy _ => h
  end.

(** ** Concrete calls, used to run the model *)

(** A stand-in for [getBH_level1] with its interface: one field vector per
    observer row, here the zero vector. *)
Definition zero_field (kwargs : gmap string value) : result ndarray :=
  match kwargs !! "observer" with
  | Some (VArr obs) =>
      match shape obs with
      | n :: _ => Ok (NDArray [n; 3] (replicate (n * 3) 0%float))
      | [] => Raise TypeError
      end
  | _ => Raise (KeyError "observer")
  end.

Definition vec3 (x y z : float) : ndarray := NDArray [3] [x; y; z].

(** [n] rows [(x,y,z)]: an explicit batch of shape (n,3). *)
Definition rows3 (n : nat) (x y z : float) : ndarray :=
  NDArray [n; 3] (repeat_data n [x; y; z]).

(** [source_type='Dipole', moment=(0,0,1), observer=(1,0,0)] *)
Definition kw_dipole : gmap string value :=
  <["source_type" := VStr "Dipole"]>
    (<["observer" := VArr (vec3 1 0 0)]> (<["moment" := VArr (vec3 0 0 1)]> ∅)).

(** The example of the spec: three observers, five positions. *)
Definition kw_mismatch : gmap string value :=
  <["observer" := VArr (rows3 3 1 0 0)]>
    (<["position" := VArr (rows3 5 0 0 0)]> kw_dipole).

(** The entries the [try] block registers for the calls above and below. *)
Definition tile_params_mismatch : tile_dict :=
  [("observer", (rows3 3 1 0 0, 2)); ("position", (rows3 5 0 0 0, 2));
   ("orientation", (as_quat unit_rotation, 2)); ("moment", (vec3 0 0 1, 2))].

(** An explicit batch of two observers. *)
Definition kw_batch : gmap string value :=
  <["observer" := VArr (rows3 2 1 0 0)]> kw_dipole.

Definition tile_params_batch : tile_dict :=
  [("observer", (rows3 2 1 0 0, 2)); ("position", (origin, 2));
   ("orientation", (as_quat unit_rotation, 2)); ("moment", (vec3 0 0 1, 2))].

(** A source type that is none of the six. *)
Definition kw_unknown : gmap string value :=
  <["source_type" := VStr "Foo"]> kw_dipole.

(** A Dipole call without its moment. *)
Definition kw_missing : gmap string value := delete "moment" kw_dipole.

Definition tile_params_dipole : tile_dict :=
  [("observer", (vec3 1 0 0, 2)); ("position", (origin, 2));
   ("orientation", (as_quat unit_rotation, 2)); ("moment", (vec3 0 0 1, 2))].

(** What [getBH_level1] receives for [kw_dipole]. *)
Definition kw_dipole_normalised : gmap string value :=
  <["orientation" := VRot (RotMany [unit_quat])]>
    (<["position" := VArr (rows3 1 0 0 0)]>
       (<["observer" := VArr (rows3 1 1 0 0)]>
          (<["moment" := VArr (rows3 1 0 0 1)]> kw_dipole))).

(** An observer array of shape (2,5,3), one rank above the declared one. *)
Definition observer_253 : ndarray := NDArray [2; 5; 3] (replicate 30 1%float).

Definition kw_over_rank : gmap string value :=
  <["observer" := VArr observer_253]> kw_dipole.


(** An object that is no source: a sensor. *)
Definition sensor : Collection.obj := Collection.Obj 7 "Sensor".

(** A Collection of one Box. *)
Definition box : Collection.obj := Collection.Obj 1 "Box".

(** A heap with one Collection, at reference 0, holding the box. *)
Definition heap_box : Collection.heap := {[ 0 := Collection.Instance_ [box] ]}.

(** The same with a second source, the sphere, after the box. *)
Definition sphere : Collection.obj := Collection.Obj 2 "Sphere".

Definition heap_two : Collection.heap := {[ 0 := Collection.Instance_ [box; sphere] ]}.

(** A Line call that gives none of the parameters of a Line. *)
Definition kw_line_bare : gmap string value :=
  <["source_type" := VStr "Line"]> (<["observer" := VArr (vec3 1 0 0)]> ∅).

(** A call that passes the orientation as an array of one quaternion, and
    no moment. *)
Definition kw_quaternion_array : gmap string value :=
  <["orientation" := VArr (NDArray [4] [0; 0; 0; 1]%float)]> (delete "moment" kw_dipole).

(** A store with one Collection, at reference 0, created from the box and
    the sphere. *)
Definition store_two : CollectionRef.store :=
  CollectionRef.run [CollectionRef.New [Collection.Source box; Collection.Source sphere]].

(** A stand-in for the methods of the sources: the state of a source counts
    the calls made on it; a sensor takes none. *)
Definition count_calls (s : Collection.obj) (m : CollectionRef.method_call) (n : nat)
  : result unit * nat :=
  if decide (Collection.object_type s = "Sensor") then (Raise TypeError, n) else (Ok (), S n).

(** * Facts about the arrays, the rotations and the normaliser *)

(** ** Tactics for goals over concrete keys *)

Ltac inv_result :=
  repeat (simplify_eq; match goal with
  | H : (if ?b then _ else _) = _ |- _ =>
      let Hb := fresh "Hb" in destruct b eqn:Hb
  | H : context [mbind _ (array_input ?kw ?k)] |- _ =>
      let a := fresh "a" in let Ha := fresh "Ha" in
      destruct (array_input kw k) as [a|?] eqn:Ha; cbn [mbind result_bind] in H
  end); simplify_eq.

Ltac NoDup_concrete :=
  cbn; repeat (apply NoDup_cons_2;
    [rewrite ?not_elem_of_cons; split_and?; first [done | apply not_elem_of_nil]|]);
  apply NoDup_nil_2.

Ltac not_elem_of_concrete H :=
  repeat (apply elem_of_cons in H as [H|H]; [done|]); by apply elem_of_nil in H.

Ltac typed_concrete :=
  unfold kwargs_typed; apply (bool_decide_unpack _); vm_compute; reflexivity.

Ltac elem_of_concrete :=
  repeat first [apply list_elem_of_here | apply list_elem_of_further].

(** ** The library models at small inputs *)

Example np_tile_vector :
  np_tile (vec3 1 2 3) 2 = NDArray [2; 3] [1; 2; 3; 1; 2; 3]%float.
Proof. reflexivity. Qed.

Example np_tile_scalar :
  np_tile (NDArray [] [5%float]) 3 = NDArray [3; 1] [5; 5; 5]%float.
Proof. reflexivity. Qed.

Example np_tile_matrix :
  np_tile (NDArray [2; 2] [1; 2; 3; 4]%float) 2
    = NDArray [4; 2] [1; 2; 3; 4; 1; 2; 3; 4]%float.
Proof. reflexivity. Qed.

Example np_tile_cube :
  np_tile (NDArray [2; 1; 2] [1; 2; 3; 4]%float) 2
    = NDArray [2; 2; 2] [1; 2; 1; 2; 3; 4; 3; 4]%float.
Proof. reflexivity. Qed.

Example np_array_repeat_scalar :
  np_array_repeat (NDArray [] [5%float]) 3 = NDArray [3] [5; 5; 5]%float.
Proof. reflexivity. Qed.

Example np_array_repeat_none :
  np_array_repeat (NDArray [] [5%float]) 0 = NDArray [0] [].
Proof. reflexivity. Qed.

Example np_squeeze_batch_of_one :
  np_squeeze (NDArray [1; 3] [1; 2; 3]%float) = vec3 1 2 3.
Proof. reflexivity. Qed.

Example np_squeeze_batch_of_two :
  np_squeeze (rows3 2 1 2 3) = rows3 2 1 2 3.
Proof. reflexivity. Qed.

Example py_max_default : py_max [] 1 = 1.
Proof. reflexivity. Qed.

Example py_max_lengths : py_max [3; 5; 3] 1 = 5.
Proof. reflexivity. Qed.

Example row_of_batch : row (rows3 2 1 2 3) 1 = Some (vec3 1 2 3).
Proof. reflexivity. Qed.

Example row_out_of_range : row (rows3 2 1 2 3) 2 = None.
Proof. reflexivity. Qed.

Example from_quat_as_quat_single :
  from_quat (as_quat unit_rotation) = Ok unit_rotation.
Proof. reflexivity. Qed.

(** [R.from_quat((1,2,3,4))] stores 0.18257418583505536 as its first
    entry; made again of its own quaternions, the Rotation holds
    0.18257418583505539 there. *)
Example from_quat_normalises_again :
  ∃ r, from_quat (NDArray [4] [1; 2; 3; 4]%float) = Ok r ∧ from_quat (as_quat r) ≠ Ok r.
Proof.
  eexists. split; [reflexivity|]. intros H.
  assert (Hb : match from_quat (as_quat (RotSingle (normalize4 (Quat 1 2 3 4)))) with
               | Ok (RotSingle q) => PrimFloat.eqb (qx q) (qx (normalize4 (Quat 1 2 3 4)))
               | _ => false
               end = true) by (rewrite H; vm_compute; reflexivity).
  vm_compute in Hb. discriminate Hb.
Qed.

Example from_quat_bad_shape : from_quat (vec3 0 0 1) = Raise ValueError.
Proof. reflexivity. Qed.

(** ** Arrays: tiling, rows, squeezing *)

Lemma len_leading a : 0 < ndim a → len a = Ok (leading a).
Proof. unfold len, leading, ndim. destruct (shape a); simpl; [lia | done]. Qed.

Lemma repeat_data_S n d : repeat_data (S n) d = d ++ repeat_data n d.
Proof. done. Qed.


Lemma tiled_explicit n val tdim : ndim val = tdim → tiled n val tdim = val.
Proof. intros. unfold tiled. case_decide; [lia | done]. Qed.


Lemma tiled_len n val tdim :
  declared_rank tdim → ndim val < tdim → len (tiled n val tdim) = Ok n.
Proof.
  intros [-> | ->] Hlt; unfold tiled, ndim in *;
    destruct (shape val) as [|k [|? ?]] eqn:Hs; simpl in Hlt; try lia;
    repeat case_decide; try lia; try done.
  - unfold np_array_repeat. by destruct n.
  - unfold np_tile. by rewrite Hs.
  - unfold np_tile. by rewrite Hs.
Qed.


Lemma np_squeeze_spec B :
  (1 ∉ shape (np_squeeze B)) ∧
  (∀ d, d ≠ 1 → (d ∈ shape (np_squeeze B) ↔ d ∈ shape B)) ∧
  data (np_squeeze B) = data B.
Proof.
  unfold np_squeeze. cbn [shape data]. split_and!; [|intros d Hd|done].
  - intros Hin. by apply list_elem_of_filter in Hin as [Hne _].
  - rewrite list_elem_of_filter. tauto.
Qed.

(** ** Rotations: from quaternions and back *)

Lemma quat_rows_data qs : quat_rows (qs ≫= quat_data) = qs.
Proof.
  induction qs as [|[x y z w] qs IH]; [done|].
  rewrite bind_cons. cbn [quat_data qx qy qz qw app quat_rows]. by rewrite IH.
Qed.

Lemma quat_rows_repeat n q : quat_rows (repeat_data n (quat_data q)) = replicate n q.
Proof.
  induction n as [|n IH]; [done|].
  rewrite repeat_data_S. destruct q as [x y z w]. simpl in *. by rewrite IH.
Qed.

Lemma from_quat_rows m d :
  from_quat (NDArray [m; 4] d) = Ok (RotMany (normalize4 <$> quat_rows d)).
Proof. done. Qed.

Lemma from_quat_tiled n rot :
  from_quat (tiled n (as_quat rot) 2) = Ok (tiled_rotation n rot).
Proof.
  destruct rot as [q|qs]; unfold tiled, ndim; cbn [as_quat shape length].
  - rewrite decide_True by lia. rewrite decide_True by done.
    unfold np_tile. cbn [shape data reverse rev_append].
    by rewrite from_quat_rows, quat_rows_repeat, fmap_replicate.
  - rewrite decide_False by lia.
    by rewrite from_quat_rows, quat_rows_data.
Qed.


(** ** The explicit lengths and the inferred batch length *)

Lemma lengths_batch_lengths values :
  Forall (λ e, 0 < e.2) values → lengths values = Ok (batch_lengths values).
Proof.
  induction 1 as [|[val tdim] rest Hpos _ IH]; [done|].
  simpl in *. unfold batch_lengths. rewrite filter_cons. 
  unfold explicit_batch at 1. simpl.
  destruct (decide (ndim val = tdim)) as [Heq|Hne].
  - rewrite len_leading by lia. simpl. rewrite IH. done.
  - rewrite IH. done.
Qed.


Lemma elem_of_batch_lengths (tp : tile_dict) l :
  Forall (λ e, declared_rank e.2.2) tp →
  l ∈ batch_lengths tp.*2 ↔
  ∃ key val tdim, (key, (val, tdim)) ∈ tp ∧ ndim val = tdim ∧ len val = Ok l.
Proof.
  intros Hranks. unfold batch_lengths. rewrite list_elem_of_fmap. split.
  - intros ([val tdim] & -> & Hin). apply list_elem_of_filter in Hin as [Hex Hin].
    apply list_elem_of_fmap in Hin as ([key [val' tdim']] & [= <- <-] & Hin).
    exists key, val, tdim. split_and!; [done..|].
    rewrite Forall_forall in Hranks. specialize (Hranks _ Hin).
    unfold explicit_batch in Hex. simpl in *.
    apply len_leading. destruct Hranks; lia.
  - intros (key & val & tdim & Hin & Hex & Hlen). exists (val, tdim). split.
    + unfold len, leading, compose in *. simpl. destruct (shape val); naive_solver.
    + apply list_elem_of_filter. split; [done|].
      apply list_elem_of_fmap. by exists (key, (val, tdim)).
Qed.

Lemma size_two_distinct (lens : gset nat) a b : a ∈ lens → b ∈ lens → a ≠ b → 1 < size lens.
Proof.
  intros Ha Hb Hne.
  assert (Hsub : ({[a]} ∪ {[b]} : gset nat) ⊆ lens).
  { intros x Hx. apply elem_of_union in Hx as [Hx|Hx];
      apply elem_of_singleton in Hx; by subst. }
  apply subseteq_size in Hsub. rewrite size_union in Hsub.
  - rewrite !size_singleton in Hsub. lia.
  - intros x Hxa Hxb. apply elem_of_singleton in Hxa, Hxb. congruence.
Qed.


Lemma py_max_all_equal (ns : list nat) N :
  Forall (λ l, l = N) ns → (ns = [] → N = 1) → py_max ns 1 = N.
Proof.
  intros Hall Hnil. destruct ns as [|x l]; [by rewrite Hnil|].
  apply Forall_cons in Hall as [-> Hall]. simpl. clear Hnil.
  induction Hall as [|y l -> _ IH]; [done|]. simpl. by rewrite Nat.max_id.
Qed.

Lemma py_max_agreed (ns : list nat) l :
  size (list_to_set ns : gset nat) ≤ 1 → l ∈ ns → py_max ns 1 = l.
Proof.
  intros Hsize Hl. apply py_max_all_equal.
  - apply Forall_forall. intros l' Hl'. destruct (decide (l' = l)) as [|Hne]; [done|].
    pose proof (size_two_distinct (list_to_set ns) l' l) as Htwo.
    rewrite !elem_of_list_to_set in Htwo. specialize (Htwo Hl' Hl Hne). lia.
  - intros ->. by apply elem_of_nil in Hl.
Qed.



(** ** What the [try] block registers *)

Lemma class_inputs_Ok kw src poso pos q tp :
  class_inputs kw src (general_entries poso pos q) = Ok tp →
  ∃ extra, tp = general_entries poso pos q ++ extra ∧ class_entries kw extra.
Proof.
  unfold class_inputs, general_entries. intros H. inv_result; simpl.
  all: (eexists; split; [reflexivity|]).
  all: split; [|NoDup_concrete].
  all: repeat (apply Forall_cons_2;
         [cbn; unfold class_keys, declared_rank; split_and!; [elem_of_concrete|auto|done]|]).
  all: apply Forall_nil_2.
Qed.

Lemma try_block_Ok kw tp sq :
  try_block kw = Ok (tp, sq) ↔ try_body kw = Ok (tp, sq).
Proof.
  unfold try_block. destruct (try_body kw) as [?|[]]; split; intros; simplify_eq; done.
Qed.

Lemma try_body_Ok kw tp sq :
  try_body kw = Ok (tp, sq) →
  ∃ src poso pos rot extra,
    kw !! "source_type" = Some src ∧
    array_input kw "observer" = Ok poso ∧
    np_array (get kw "position" (VArr origin)) = Ok pos ∧
    get kw "orientation" (VRot unit_rotation) = VRot rot ∧
    sq = get kw "squeeze" (VBool true) ∧
    class_inputs kw src (general_entries poso pos (as_quat rot)) = Ok tp ∧
    tp = general_entries poso pos (as_quat rot) ++ extra ∧
    class_entries kw extra.
Proof.
  unfold try_body, getitem. intros H.
  destruct (kw !! "source_type") as [src|]; [|done]. cbn [mbind result_bind] in H.
  destruct (array_input kw "observer") as [poso|]; [|done]. cbn [mbind result_bind] in H.
  destruct (np_array (get kw "position" (VArr origin))) as [pos|]; [|done].
  cbn [mbind result_bind] in H.
  destruct (get kw "orientation" (VRot unit_rotation)) as [| |rot|]; try done.
  cbn [mbind result_bind call_as_quat] in H.
  change (setitem _ "orientation" _) with (general_entries poso pos (as_quat rot)) in H.
  destruct (class_inputs _ _ _) as [tp'|] eqn:Hc; [|done].
  cbn [mbind result_bind] in H. simplify_eq.
  destruct (class_inputs_Ok _ _ _ _ _ _ Hc) as (extra & -> & Hextra).
  exists src, poso, pos, rot, extra. split_and!; done.
Qed.

Lemma general_not_class k : k ∈ class_keys → k ∉ ["observer"; "position"; "orientation"].
Proof.
  unfold class_keys. rewrite !elem_of_cons, !elem_of_nil. 
  intros H; repeat destruct H as [->|H]; try done; intros H'; 
   repeat destruct H' as [?|H']; done.
Qed.

Lemma tile_params_NoDup kw poso pos q extra :
  class_entries kw extra → NoDup (general_entries poso pos q ++ extra).*1.
Proof.
  intros [Hall Hnd]. rewrite fmap_app. apply NoDup_app. split_and!.
  - NoDup_concrete.
  - intros k Hk Hk'. apply list_elem_of_fmap in Hk' as (e & -> & He).
    rewrite Forall_forall in Hall. destruct (Hall e He) as (Hck & _).
    by apply general_not_class in Hck.
  - done.
Qed.

Lemma tile_params_ranks kw poso pos q extra :
  class_entries kw extra →
  Forall (λ e, declared_rank e.2.2) (general_entries poso pos q ++ extra).
Proof.
  intros [Hall _]. apply Forall_app. split.
  - unfold general_entries. repeat (apply Forall_cons_2; [by right|]). apply Forall_nil_2.
  - eapply Forall_impl; [done|]. by intros e (_ & ? & _).
Qed.

Lemma tile_params_of_try_block kw tp sq :
  try_block kw = Ok (tp, sq) →
  NoDup tp.*1 ∧ Forall (λ e, declared_rank e.2.2) tp ∧
  ∃ rot, get kw "orientation" (VRot unit_rotation) = VRot rot ∧
         ("orientation", (as_quat rot, 2)) ∈ tp.
Proof.
  intros Htry. apply try_block_Ok, try_body_Ok in Htry.
  destruct Htry as (src & poso & pos & rot & extra & _ & _ & _ & Hrot & _ & _ & -> & Hextra).
  split_and!.
  - by eapply tile_params_NoDup.
  - by eapply tile_params_ranks.
  - exists rot. split; [done|]. apply elem_of_app. left.
    unfold general_entries. elem_of_concrete.
Qed.



Lemma try_block_squeeze kw tp sq :
  try_block kw = Ok (tp, sq) → sq = get kw "squeeze" (VBool true).
Proof.
  intros Htry. apply try_block_Ok, try_body_Ok in Htry.
  by destruct Htry as (src & poso & pos & rot & extra & _ & _ & _ & _ & -> & _).
Qed.

Lemma registered_keys kw tp sq k :
  try_block kw = Ok (tp, sq) → k ∈ tp.*1 →
  k ∈ ["observer"; "position"; "orientation"] ++ class_keys.
Proof.
  intros Htry. apply try_block_Ok, try_body_Ok in Htry.
  destruct Htry as (src & poso & pos & rot & extra & _ & _ & _ & _ & _ & _ & -> & [Hall _]).
  rewrite fmap_app. intros Hk. apply elem_of_app in Hk as [Hk|Hk];
    apply elem_of_app; [by left|right].
  apply list_elem_of_fmap in Hk as (e & -> & He).
  rewrite Forall_forall in Hall. by destruct (Hall _ He).
Qed.

Lemma squeeze_not_registered kw tp sq :
  try_block kw = Ok (tp, sq) → ("squeeze" ∉ tp.*1) ∧ ("source_type" ∉ tp.*1).
Proof.
  intros Htry. split; intros Hk; apply (registered_keys _ _ _ _ Htry) in Hk;
    unfold class_keys in Hk; cbn in Hk; rewrite !elem_of_cons, elem_of_nil in Hk;
    repeat destruct Hk as [?|Hk]; done.
Qed.

Lemma py_eq_decide tag tag' : py_eq (VStr tag) tag' = bool_decide (tag = tag').
Proof.
  unfold py_eq. destruct (String.eqb_spec tag tag').
  - by rewrite bool_decide_eq_true_2.
  - by rewrite bool_decide_eq_false_2.
Qed.


(** ** The [try] block reads only its own keys *)

Lemma class_inputs_ext kw1 kw2 src base :
  (∀ k, k ∈ class_keys → kw1 !! k = kw2 !! k) →
  class_inputs kw1 src base = class_inputs kw2 src base.
Proof.
  intros Hk. unfold class_inputs, array_input, getitem.
  rewrite !Hk by (unfold class_keys; elem_of_concrete). done.
Qed.

Lemma try_body_ext kw1 kw2 :
  (∀ k, k ∈ indexed_keys → kw1 !! k = kw2 !! k) →
  get kw1 "position" (VArr origin) = get kw2 "position" (VArr origin) →
  get kw1 "orientation" (VRot unit_rotation) = get kw2 "orientation" (VRot unit_rotation) →
  try_body kw1 = (λ p, (p.1, get kw1 "squeeze" (VBool true))) <$> try_body kw2.
Proof.
  intros Hk Hpos Hrot. unfold try_body, array_input, getitem.
  rewrite (Hk "source_type") by (unfold indexed_keys; elem_of_concrete).
  destruct (kw2 !! "source_type") as [src|]; [|done]. cbn [mbind result_bind].
  rewrite (Hk "observer") by (unfold indexed_keys; elem_of_concrete).
  destruct (kw2 !! "observer") as [vo|]; [|done]. cbn [mbind result_bind].
  destruct (np_array vo); [|done]. cbn [mbind result_bind].
  rewrite Hpos. destruct (np_array _); [|done]. cbn [mbind result_bind].
  rewrite Hrot. destruct (call_as_quat _); [|done]. cbn [mbind result_bind].
  rewrite (class_inputs_ext kw1 kw2); cycle 1.
  { intros k Hin. apply Hk. by do 2 apply list_elem_of_further. }
  destruct (class_inputs _ _ _); done.
Qed.

Lemma try_block_ext kw1 kw2 tp sq :
  (∀ k, k ∈ indexed_keys → kw1 !! k = kw2 !! k) →
  get kw1 "position" (VArr origin) = get kw2 "position" (VArr origin) →
  get kw1 "orientation" (VRot unit_rotation) = get kw2 "orientation" (VRot unit_rotation) →
  try_block kw2 = Ok (tp, sq) →
  try_block kw1 = Ok (tp, get kw1 "squeeze" (VBool true)).
Proof.
  intros Hk Hpos Hrot Htry. apply try_block_Ok in Htry. apply try_block_Ok.
  rewrite (try_body_ext kw1 kw2) by done. by rewrite Htry.
Qed.

Lemma try_block_ext_Raise kw1 kw2 e :
  (∀ k, k ∈ indexed_keys → kw1 !! k = kw2 !! k) →
  get kw1 "position" (VArr origin) = get kw2 "position" (VArr origin) →
  get kw1 "orientation" (VRot unit_rotation) = get kw2 "orientation" (VRot unit_rotation) →
  try_block kw2 = Raise e → try_block kw1 = Raise e.
Proof.
  intros Hk Hpos Hrot. unfold try_block.
  rewrite (try_body_ext kw1 kw2) by done.
  destruct (try_body kw2) as [|[]]; simpl; intros; simplify_eq; done.
Qed.

Lemma indexed_not_optional k :
  k ∈ indexed_keys → k ∉ ["position"; "orientation"; "squeeze"].
Proof.
  unfold indexed_keys, class_keys. rewrite !elem_of_cons, !elem_of_nil.
  intros H; repeat destruct H as [->|H]; try done; intros H';
    repeat destruct H' as [?|H']; done.
Qed.

Lemma indexed_not_squeeze k : k ∈ indexed_keys → k ≠ "squeeze".
Proof.
  intros Hk ->. apply indexed_not_optional in Hk.
  rewrite !not_elem_of_cons in Hk. tauto.
Qed.

Lemma try_block_insert_squeeze kw tp sq v :
  try_block kw = Ok (tp, sq) → try_block (<["squeeze" := v]> kw) = Ok (tp, v).
Proof.
  intros Htry. erewrite try_block_ext; [|..|done].
  - unfold get. by rewrite lookup_insert_eq.
  - intros k Hk. apply indexed_not_squeeze in Hk. by rewrite lookup_insert_ne.
  - unfold get. by rewrite lookup_insert_ne.
  - unfold get. by rewrite lookup_insert_ne.
Qed.

Lemma try_block_delete_squeeze kw tp sq :
  try_block kw = Ok (tp, sq) → try_block (delete "squeeze" kw) = Ok (tp, VBool true).
Proof.
  intros Htry. erewrite try_block_ext; [|..|done].
  - unfold get. by rewrite lookup_delete_eq.
  - intros k Hk. apply indexed_not_squeeze in Hk. by rewrite lookup_delete_ne.
  - unfold get. by rewrite lookup_delete_ne.
  - unfold get. by rewrite lookup_delete_ne.
Qed.

(** ** Inputs of the documented kinds *)

Lemma well_typed_source v : well_typed "source_type" v = true → ∃ s, v = VStr s.
Proof. unfold well_typed. rewrite decide_True by done. destruct v; eauto; done. Qed.

Lemma well_typed_array k v :
  k ∈ array_keys → well_typed k v = true → ∃ a, v = VArr a.
Proof.
  intros Hk. unfold well_typed. case_decide as Hs.
  - subst k. unfold array_keys, class_keys in Hk. not_elem_of_concrete Hk.
  - rewrite decide_True by done. destruct v; eauto; done.
Qed.

Lemma well_typed_orientation v : well_typed "orientation" v = true → ∃ r, v = VRot r.
Proof.
  unfold well_typed. rewrite decide_False by done. case_decide as Hk.
  - unfold array_keys, class_keys in Hk. not_elem_of_concrete Hk.
  - rewrite decide_True by done. destruct v; eauto; done.
Qed.

Lemma array_input_typed kw k :
  kwargs_typed kw → k ∈ array_keys →
  (kw !! k = None ∧ array_input kw k = Raise (KeyError k)) ∨
  (∃ a, kw !! k = Some (VArr a) ∧ array_input kw k = Ok a).
Proof.
  intros Hty Hk. unfold array_input, getitem.
  destruct (kw !! k) as [v|] eqn:Hv; [right|left; done].
  destruct (well_typed_array k v Hk (Hty k v Hv)) as [a ->]. eauto.
Qed.

Ltac array_input_cases Hty :=
  repeat match goal with
  | |- context [array_input ?kw ?k] =>
      let Hk := fresh "Hk" in
      let a := fresh "a" in
      let Hin := fresh in
      assert (Hin : k ∈ array_keys) by (unfold array_keys, class_keys; elem_of_concrete);
      destruct (array_input_typed kw k Hty Hin) as [[Hk ->]|(a & Hk & ->)];
      clear Hin; cbn [mbind result_bind]
  end.

Lemma class_inputs_missing kw tag base :
  kwargs_typed kw →
  (∃ k, k ∈ required_parameters tag ∧ kw !! k = None) →
  ∃ k, k ∈ required_parameters tag ∧ kw !! k = None ∧
       class_inputs kw (VStr tag) base = Raise (KeyError k).
Proof.
  intros Hty (k0 & Hk0 & Hnone). revert Hk0.
  unfold class_inputs, required_parameters. rewrite !py_eq_decide.
  repeat (let Htag := fresh "Htag" in case_decide as Htag;
    [rewrite (bool_decide_eq_true_2 _ Htag) |rewrite (bool_decide_eq_false_2 _ Htag)]).
  all: intros Hk0.
  all: array_input_cases Hty.
  all: try (eexists; refine (conj _ (conj _ eq_refl)); [elem_of_concrete|done]).
  all: exfalso; rewrite ?elem_of_cons, elem_of_nil in Hk0; 
       repeat destruct Hk0 as [->|Hk0]; congruence.
Qed.

Lemma get_position_typed kw :
  kwargs_typed kw → ∃ pos, get kw "position" (VArr origin) = VArr pos.
Proof.
  intros Hty. unfold get. destruct (kw !! "position") as [v|] eqn:Hv; [|by eexists].
  destruct (well_typed_array "position" v) as [a ->]; [|by apply (Hty _ _ Hv)|by eexists].
  unfold array_keys. elem_of_concrete.
Qed.

Lemma get_orientation_typed kw :
  kwargs_typed kw → ∃ rot, get kw "orientation" (VRot unit_rotation) = VRot rot.
Proof.
  intros Hty. unfold get. destruct (kw !! "orientation") as [v|] eqn:Hv; [|by eexists].
  destruct (well_typed_orientation v (Hty _ _ Hv)) as [r ->]. by eexists.
Qed.



Lemma try_block_missing kw :
  kwargs_typed kw →
  (∃ k, k ∈ mandatory_keys kw ∧ kw !! k = None) →
  ∃ k, k ∈ mandatory_keys kw ∧ kw !! k = None ∧
    try_block kw = Raise (MagpylibBadUserInput (Missing_input_keys k)).
Proof.
  intros Hty (k0 & Hk0 & Hnone).
  cut (∃ k, k ∈ mandatory_keys kw ∧ kw !! k = None ∧ try_body kw = Raise (KeyError k)).
  { intros (k & ? & ? & Hbody). exists k. split_and!; [done..|].
    unfold try_block. by rewrite Hbody. }
  unfold mandatory_keys in *. unfold try_body, getitem.
  destruct (kw !! "source_type") as [src|] eqn:Hsrc; cycle 1.
  { exists "source_type". split_and!; [elem_of_concrete|done..]. }
  destruct (well_typed_source src (Hty _ _ Hsrc)) as [tag ->].
  cbn [mbind result_bind].
  destruct (array_input_typed kw "observer" Hty) as [[Hobs ->]|(poso & Hobs & ->)].
  { unfold array_keys. elem_of_concrete. }
  { exists "observer". split_and!; [elem_of_concrete|done..]. }
  destruct (get_position_typed kw Hty) as [pos ->].
  destruct (get_orientation_typed kw Hty) as [rot ->].
  cbn [mbind result_bind np_array call_as_quat].
  destruct (class_inputs_missing kw tag
    (setitem (setitem (setitem [] "observer" (poso, 2)) "position" (pos, 2))
       "orientation" (as_quat rot, 2)) Hty) as (k & Hk & Hknone & ->).
  { exists k0. split; [|done].
    rewrite !elem_of_cons in Hk0. destruct Hk0 as [->|[->|?]]; congruence. }
  exists k. split_and!; [|done..]. by do 2 apply list_elem_of_further.
Qed.

(** ** The tiling loop *)

Lemma tile_step_tiled n kw key val tdim :
  declared_rank tdim →
  tile_step n kw (key, (val, tdim)) = <[key := VArr (tiled n val tdim)]> kw.
Proof.
  intros [-> | ->]; unfold tile_step, tiled; repeat case_decide; done.
Qed.

Lemma tile_loop_lookup_notin n tile_params kw key :
  key ∉ tile_params.*1 → tile_loop n tile_params kw !! key = kw !! key.
Proof.
  unfold tile_loop. revert kw.
  induction tile_params as [|[k [val tdim]] rest IH]; intros kw Hnotin; [done|].
  rewrite fmap_cons, not_elem_of_cons in Hnotin. destruct Hnotin as [Hne Hrest].
  simpl in *. rewrite IH by done.
  repeat case_decide; rewrite ?lookup_insert_ne; done.
Qed.

Lemma tile_loop_lookup n tile_params kw key val tdim :
  NoDup tile_params.*1 → (key, (val, tdim)) ∈ tile_params → declared_rank tdim →
  tile_loop n tile_params kw !! key = Some (VArr (tiled n val tdim)).
Proof.
  unfold tile_loop. revert kw.
  induction tile_params as [|[k [v t]] rest IH]; intros kw Hnd Hin Hrank.
  - by apply elem_of_nil in Hin.
  - rewrite fmap_cons in Hnd. apply NoDup_cons in Hnd as [Hk Hnd].
    apply elem_of_cons in Hin as [[= <- <- <-] | Hin].
    + cbn [foldl]. rewrite tile_step_tiled by done.
      fold (tile_loop n rest (<[key:=VArr (tiled n val tdim)]> kw)).
      rewrite tile_loop_lookup_notin by done. apply lookup_insert_eq.
    + cbn [foldl]. by apply IH.
Qed.


Lemma tile_loop_insert n (tp : tile_dict) kw j v :
  j ∉ tp.*1 → tile_loop n tp (<[j := v]> kw) = <[j := v]> (tile_loop n tp kw).
Proof.
  unfold tile_loop. revert kw.
  induction tp as [|[k [val tdim]] tp IH]; intros kw Hj; [done|].
  rewrite fmap_cons, not_elem_of_cons in Hj. destruct Hj as [Hne Hj].
  cbn [foldl]. rewrite <- IH by done. f_equal.
  unfold tile_step. simpl in Hne.
  repeat case_decide; try done; by rewrite insert_insert_ne.
Qed.

Lemma tile_loop_delete n (tp : tile_dict) kw j :
  j ∉ tp.*1 → tile_loop n tp (delete j kw) = delete j (tile_loop n tp kw).
Proof.
  unfold tile_loop. revert kw.
  induction tp as [|[k [val tdim]] tp IH]; intros kw Hj; [done|].
  rewrite fmap_cons, not_elem_of_cons in Hj. destruct Hj as [Hne Hj].
  cbn [foldl]. rewrite <- IH by done. f_equal.
  unfold tile_step. simpl in Hne.
  repeat case_decide; try done; by rewrite delete_insert_ne.
Qed.

Lemma normalised_lookup n tp rot kw key val tdim :
  NoDup tp.*1 → Forall (λ e, declared_rank e.2.2) tp →
  (key, (val, tdim)) ∈ tp → key ≠ "orientation" →
  normalised n tp rot kw !! key = Some (VArr (tiled n val tdim)).
Proof.
  intros Hnd Hranks Hin Hne. unfold normalised.
  rewrite lookup_insert_ne by done. eapply tile_loop_lookup; [done..|].
  rewrite Forall_forall in Hranks. apply (Hranks _ Hin).
Qed.


(** ** The monad of runs *)

Lemma run_bind_lift_Ok {A B} (a : A) (f : A → Run B) : run_lift (Ok a) ≫= f = f a.
Proof. unfold mbind, run_bind. simpl. by destruct (f a). Qed.

(** ** The run of [getBHv_level2] *)

Section getBHv_facts.

Variable getBH_level1 : gmap string value → result ndarray.

Lemma getBHv_level2_Raise kw e :
  try_block kw = Raise e → getBHv_level2 getBH_level1 kw = run_raise e.
Proof. intros H. unfold getBHv_level2. by rewrite H. Qed.

Lemma getBHv_level2_run kw tp sq :
  try_block kw = Ok (tp, sq) →
  ∃ rot, get kw "orientation" (VRot unit_rotation) = VRot rot ∧
    getBHv_level2 getBH_level1 kw =
      let lens : gset nat := list_to_set (batch_lengths tp.*2) in
      if decide (1 < size lens) then
        run_raise (MagpylibBadUserInput (bad_array_input_lengths lens))
      else
        let kw' := normalised (batch_length tp) tp rot kw in
        MkRun [kw'] (field_of getBH_level1 kw' sq).
Proof.
  intros Htry. pose proof Htry as Hbody. apply try_block_Ok, try_body_Ok in Hbody.
  destruct Hbody as (src & poso & pos & rot & extra & _ & _ & _ & Hrot & _ & _ & -> & Hextra).
  exists rot. split; [done|].
  unfold getBHv_level2. rewrite Htry, run_bind_lift_Ok.
  rewrite lengths_batch_lengths, run_bind_lift_Ok; cycle 1.
  { apply Forall_fmap. eapply Forall_impl; [by eapply tile_params_ranks|].
    intros e [Hr|Hr]; simpl; rewrite Hr; lia. }
  cbv zeta. case_decide; [done|].
  set (tp := general_entries _ _ _ ++ _). fold (batch_length tp).
  unfold getitem. erewrite tile_loop_lookup; cycle 1.
  { by eapply tile_params_NoDup. }
  { apply elem_of_app. left. unfold general_entries. elem_of_concrete. }
  { by right. }
  rewrite run_bind_lift_Ok. unfold R_from_quat. cbn [np_array mbind result_bind].
  rewrite from_quat_tiled, run_bind_lift_Ok.
  fold (normalised (batch_length tp) tp rot kw).
  unfold field_of, call_getBH_level1, mbind at 1, run_bind. cbn [outcome calls].
  destruct (getBH_level1 _) as [B|e]; [|done]. cbn [mbind result_bind].
  destruct (truthy sq) as [b|e]; done.
Qed.

Lemma getBHv_level2_calls kw kw' :
  calls (getBHv_level2 getBH_level1 kw) = [kw'] →
  ∃ tp sq rot,
    try_block kw = Ok (tp, sq) ∧
    get kw "orientation" (VRot unit_rotation) = VRot rot ∧
    size (list_to_set (batch_lengths tp.*2) : gset nat) ≤ 1 ∧
    kw' = normalised (batch_length tp) tp rot kw ∧
    outcome (getBHv_level2 getBH_level1 kw) = field_of getBH_level1 kw' sq.
Proof.
  destruct (try_block kw) as [[tp sq]|e] eqn:Htry; cycle 1.
  { by rewrite (getBHv_level2_Raise _ _ Htry). }
  destruct (getBHv_level2_run _ _ _ Htry) as (rot & Hrot & ->).
  cbv zeta. case_decide as Hsize; [done|]. cbn [calls outcome].
  intros [= <-]. exists tp, sq, rot. split_and!; [done..|lia|done|done].
Qed.

Lemma getBHv_level2_reaches kw tp sq :
  try_block kw = Ok (tp, sq) →
  size (list_to_set (batch_lengths tp.*2) : gset nat) ≤ 1 →
  ∃ rot, get kw "orientation" (VRot unit_rotation) = VRot rot ∧
    getBHv_level2 getBH_level1 kw =
      MkRun [normalised (batch_length tp) tp rot kw]
            (field_of getBH_level1 (normalised (batch_length tp) tp rot kw) sq).
Proof.
  intros Htry Hsize.
  destruct (getBHv_level2_run _ _ _ Htry) as (rot & Hrot & ->).
  exists rot. split; [done|]. cbv zeta. case_decide; [lia|done].
Qed.


Lemma getBHv_level2_squeeze kw tp sq v :
  try_block kw = Ok (tp, sq) →
  size (list_to_set (batch_lengths tp.*2) : gset nat) ≤ 1 →
  ∃ rot, get kw "orientation" (VRot unit_rotation) = VRot rot ∧
    getBHv_level2 getBH_level1 (<["squeeze" := v]> kw) =
      MkRun [<["squeeze" := v]> (normalised (batch_length tp) tp rot kw)]
            (field_of getBH_level1
               (<["squeeze" := v]> (normalised (batch_length tp) tp rot kw)) v).
Proof.
  intros Htry Hsize.
  pose proof (try_block_insert_squeeze _ _ _ v Htry) as Htry'.
  destruct (getBHv_level2_reaches _ _ _ Htry' Hsize) as (rot & Hrot & ->).
  exists rot. split; [unfold get in *; by rewrite lookup_insert_ne in Hrot|].
  destruct (squeeze_not_registered _ _ _ Htry) as [Hsq _].
  unfold normalised. rewrite tile_loop_insert by done.
  by rewrite (insert_insert_ne _ "orientation" "squeeze").
Qed.

Lemma getBHv_level2_no_squeeze kw tp sq :
  try_block kw = Ok (tp, sq) →
  size (list_to_set (batch_lengths tp.*2) : gset nat) ≤ 1 →
  ∃ rot, get kw "orientation" (VRot unit_rotation) = VRot rot ∧
    getBHv_level2 getBH_level1 (delete "squeeze" kw) =
      MkRun [delete "squeeze" (normalised (batch_length tp) tp rot kw)]
            (field_of getBH_level1
               (delete "squeeze" (normalised (batch_length tp) tp rot kw)) (VBool true)).
Proof.
  intros Htry Hsize.
  pose proof (try_block_delete_squeeze _ _ _ Htry) as Htry'.
  destruct (getBHv_level2_reaches _ _ _ Htry' Hsize) as (rot & Hrot & ->).
  exists rot. split; [unfold get in *; by rewrite lookup_delete_ne in Hrot|].
  destruct (squeeze_not_registered _ _ _ Htry) as [Hsq _].
  unfold normalised. rewrite tile_loop_delete by done.
  by rewrite (delete_insert_ne _ "squeeze" "orientation").
Qed.

Lemma squeeze_flag_squeezes_result kw :
  (∀ k v, getBH_level1 (<["squeeze" := v]> k) = getBH_level1 (delete "squeeze" k)) →
  outcome (getBHv_level2 getBH_level1 (<["squeeze" := VBool true]> kw)) =
    np_squeeze <$> outcome (getBHv_level2 getBH_level1 (<["squeeze" := VBool false]> kw)).
Proof.
  intros Hignore. destruct (try_block kw) as [[tp sq]|e] eqn:Htry.
  - destruct (decide (size (list_to_set (batch_lengths tp.*2) : gset nat) ≤ 1))
      as [Hsize|Hsize].
    + destruct (getBHv_level2_squeeze _ _ _ (VBool true) Htry Hsize) as (rot & Hrot & ->).
      destruct (getBHv_level2_squeeze _ _ _ (VBool false) Htry Hsize) as (rot' & Hrot' & ->).
      assert (rot' = rot) as -> by congruence.
      cbn [outcome]. unfold field_of. rewrite !Hignore.
      by destruct (getBH_level1 _).
    + destruct (getBHv_level2_run _ _ _ (try_block_insert_squeeze _ _ _ (VBool true) Htry))
        as (? & _ & ->).
      destruct (getBHv_level2_run _ _ _ (try_block_insert_squeeze _ _ _ (VBool false) Htry))
        as (? & _ & ->).
      cbv zeta. by rewrite !decide_True by lia.
  - assert (Hext : ∀ v, try_block (<["squeeze" := v]> kw) = Raise e).
    { intros v. eapply try_block_ext_Raise; [| | |done].
      - intros k Hk. apply indexed_not_squeeze in Hk. by rewrite lookup_insert_ne.
      - unfold get. by rewrite lookup_insert_ne.
      - unfold get. by rewrite lookup_insert_ne. }
    by rewrite !(getBHv_level2_Raise _ _ (Hext _)).
Qed.

(** C1.  When two explicit-batch inputs (rank equal to the declared rank)
    have different lengths, the call raises MagpylibBadUserInput with the
    bad-array-input-lengths message, whose payload is exactly the set of
    the lengths of the explicit-batch inputs, and the call log is empty:
    [getBH_level1] has not been invoked. *)
Theorem length_mismatch_raises kw tp sq k1 v1 t1 n1 k2 v2 t2 n2 :
  try_block kw = Ok (tp, sq) →
  (k1, (v1, t1)) ∈ tp → ndim v1 = t1 → len v1 = Ok n1 →
  (k2, (v2, t2)) ∈ tp → ndim v2 = t2 → len v2 = Ok n2 →
  n1 ≠ n2 →
  ∃ lens : gset nat,
    (∀ l, l ∈ lens ↔
       ∃ key val tdim, (key, (val, tdim)) ∈ tp ∧ ndim val = tdim ∧ len val = Ok l) ∧
    getBHv_level2 getBH_level1 kw =
      MkRun [] (Raise (MagpylibBadUserInput (bad_array_input_lengths lens))).
Proof.
  intros Htry Hin1 Hex1 Hlen1 Hin2 Hex2 Hlen2 Hne.
  pose proof Htry as Hbody. apply try_block_Ok, try_body_Ok in Hbody.
  destruct Hbody as (src & poso & pos & rot & extra & _ & _ & _ & _ & _ & _ & Htp & Hextra).
  assert (Hranks : Forall (λ e, declared_rank e.2.2) tp).
  { subst tp. by eapply tile_params_ranks. }
  exists (list_to_set (batch_lengths tp.*2)). split.
  { intros l. by rewrite elem_of_list_to_set, elem_of_batch_lengths. }
  destruct (getBHv_level2_run _ _ _ Htry) as (? & _ & ->).
  cbv zeta. rewrite decide_True; [done|].
  apply (size_two_distinct _ n1 n2); [| |done];
    apply elem_of_list_to_set, elem_of_batch_lengths; eauto 10.
Qed.



(** C4.  For a call of the documented kinds that omits a mandatory key
    ([source_type], [observer], or a parameter required by its source
    type), the call raises MagpylibBadUserInput with the missing-input
    message naming a mandatory key that is absent, and the call log is
    empty: no kernel has run. *)
Theorem missing_mandatory_key_raises kw :
  kwargs_typed kw →
  (∃ k, k ∈ mandatory_keys kw ∧ kw !! k = None) →
  ∃ k, k ∈ mandatory_keys kw ∧ kw !! k = None ∧
    getBHv_level2 getBH_level1 kw =
      MkRun [] (Raise (MagpylibBadUserInput (Missing_input_keys k))).
Proof.
  intros Hty Hmissing.
  destruct (try_block_missing kw Hty Hmissing) as (k & Hk & Hnone & Htry).
  exists k. split_and!; [done..|]. by apply getBHv_level2_Raise.
Qed.

(** C5.  Let [getBH_level1] ignore the [squeeze] keyword and return one
    3-vector per observer row.  For a single-instance query (inferred batch
    length 1, observer within its declared rank), if the call with
    [squeeze=False] returns [B], then [B] has shape (1,3), and the same
    call with [squeeze=True] or without [squeeze] returns the array of
    shape (3,) over the same buffer, which is [np.squeeze(B)]: the axes of
    length 1 are gone and nothing else has changed. *)
Theorem squeeze_single_instance kw tp sq obs B :
  (∀ k v, getBH_level1 (<["squeeze" := v]> k) = getBH_level1 (delete "squeeze" k)) →
  (∀ k o n F, k !! "observer" = Some (VArr o) → len o = Ok n →
              getBH_level1 k = Ok F → shape F = [n; 3]) →
  try_block kw = Ok (tp, sq) →
  batch_length tp = 1 →
  kw !! "observer" = Some (VArr obs) → ndim obs ≤ 2 →
  outcome (getBHv_level2 getBH_level1 (<["squeeze" := VBool false]> kw)) = Ok B →
  shape B = [1; 3] ∧
  outcome (getBHv_level2 getBH_level1 (<["squeeze" := VBool true]> kw))
    = Ok (NDArray [3] (data B)) ∧
  outcome (getBHv_level2 getBH_level1 (delete "squeeze" kw))
    = Ok (NDArray [3] (data B)) ∧
  np_squeeze B = NDArray [3] (data B).
Proof.
  intros Hignore Hshape Htry HN Hobs Hrank HB.
  destruct (decide (size (list_to_set (batch_lengths tp.*2) : gset nat) ≤ 1))
    as [Hsize|Hsize]; cycle 1.
  { exfalso.
    pose proof (try_block_insert_squeeze _ _ _ (VBool false) Htry) as Htry'.
    destruct (getBHv_level2_run _ _ _ Htry') as (? & _ & Hrun).
    rewrite Hrun in HB. cbv zeta in HB. rewrite decide_True in HB by lia. done. }
  destruct (getBHv_level2_squeeze _ _ _ (VBool false) Htry Hsize) as (rot & Hrot & HF).
  destruct (getBHv_level2_squeeze _ _ _ (VBool true) Htry Hsize) as (rot1 & Hrot1 & ->).
  destruct (getBHv_level2_no_squeeze _ _ _ Htry Hsize) as (rot2 & Hrot2 & ->).
  assert (rot1 = rot) as -> by congruence. assert (rot2 = rot) as -> by congruence.
  rewrite HF in HB. cbn [outcome] in *. unfold field_of in *.
  rewrite Hignore in HB |- *. set (nk := normalised _ _ _ _) in *.
  rewrite <- (Hignore nk (VBool false)).
  rewrite <- (Hignore nk (VBool false)) in HB.
  destruct (getBH_level1 (<["squeeze" := VBool false]> nk)) as [F|] eqn:HF1; [|done].
  cbn [mbind result_bind truthy] in *. injection HB as ->.
  assert (HshapeB : shape B = [1; 3]).
  { destruct (tile_params_of_try_block _ _ _ Htry) as (Hnd & Hranks & _).
    pose proof Htry as Hbody. apply try_block_Ok, try_body_Ok in Hbody.
    destruct Hbody as (src & poso & pos & rot' & extra & _ & Hposo & _ & _ & _ & _ & Htp & _).
    unfold array_input, getitem in Hposo. rewrite Hobs in Hposo. injection Hposo as <-.
    assert (Hin : ("observer", (obs, 2)) ∈ tp).
    { subst tp. apply elem_of_app. left. unfold general_entries. elem_of_concrete. }
    eapply (Hshape _ (tiled 1 obs 2)); [| |done].
    - rewrite lookup_insert_ne by done. subst nk. rewrite HN.
      by eapply normalised_lookup.
    - destruct (decide (ndim obs = 2)) as [Heq|Hne].
      + rewrite tiled_explicit by done.
        assert (Hl : leading obs ∈ batch_lengths tp.*2).
        { apply elem_of_batch_lengths; [done|]. exists "observer", obs, 2.
          split_and!; [done..|]. apply len_leading. lia. }
        rewrite len_leading by lia. f_equal.
        rewrite <- HN. symmetry. by apply py_max_agreed.
      + apply tiled_len; [by right|lia]. }
  assert (Hsq : np_squeeze B = NDArray [3] (data B)).
  { unfold np_squeeze. by rewrite HshapeB. }
  by rewrite Hsq.
Qed.



End getBHv_facts.

(** * The claims at concrete calls *)

Lemma length_mismatch_raises_witness :
  ∃ lens : gset nat,
    (∀ l, l ∈ lens ↔
       ∃ key val tdim, (key, (val, tdim)) ∈ tile_params_mismatch ∧
                       ndim val = tdim ∧ len val = Ok l) ∧
    getBHv_level2 zero_field kw_mismatch =
      MkRun [] (Raise (MagpylibBadUserInput (bad_array_input_lengths lens))).
Proof.
  apply (length_mismatch_raises zero_field kw_mismatch tile_params_mismatch (VBool true)
           "observer" (rows3 3 1 0 0) 2 3 "position" (rows3 5 0 0 0) 2 5).
  - vm_compute. reflexivity.
  - unfold tile_params_mismatch. elem_of_concrete.
  - reflexivity.
  - reflexivity.
  - unfold tile_params_mismatch. elem_of_concrete.
  - reflexivity.
  - reflexivity.
  - lia.
Defined.

Example length_mismatch_example :
  getBHv_level2 zero_field kw_mismatch =
    MkRun [] (Raise (MagpylibBadUserInput (bad_array_input_lengths (list_to_set [3; 5])))).
Proof. vm_compute. reflexivity. Qed.




Example unknown_source_type_example :
  getBHv_level2 zero_field kw_unknown =
    MkRun [ <["orientation" := VRot (RotMany [unit_quat])]>
              (<["position" := VArr (rows3 1 0 0 0)]>
                 (<["observer" := VArr (rows3 1 1 0 0)]> kw_unknown)) ]
          (Ok (vec3 0 0 0)).
Proof. vm_compute. reflexivity. Qed.

Lemma missing_mandatory_key_raises_witness :
  ∃ k, k ∈ mandatory_keys kw_missing ∧ kw_missing !! k = None ∧
    getBHv_level2 zero_field kw_missing =
      MkRun [] (Raise (MagpylibBadUserInput (Missing_input_keys k))).
Proof.
  apply (missing_mandatory_key_raises zero_field kw_missing).
  - typed_concrete.
  - exists "moment". split; [|reflexivity]. vm_compute. elem_of_concrete.
Defined.

Example missing_moment_example :
  getBHv_level2 zero_field kw_missing =
    MkRun [] (Raise (MagpylibBadUserInput (Missing_input_keys "moment"))).
Proof. vm_compute. reflexivity. Qed.

Lemma zero_field_ignores_squeeze k v :
  zero_field (<["squeeze" := v]> k) = zero_field (delete "squeeze" k).
Proof. unfold zero_field. by rewrite lookup_insert_ne, lookup_delete_ne. Qed.

Lemma zero_field_shape k o n F :
  k !! "observer" = Some (VArr o) → len o = Ok n → zero_field k = Ok F → shape F = [n; 3].
Proof.
  unfold zero_field, len. intros -> Hlen HF.
  destruct (shape o) as [|m s]; [done|]. by simplify_eq.
Qed.

Lemma squeeze_single_instance_witness :
  shape (rows3 1 0 0 0) = [1; 3] ∧
  outcome (getBHv_level2 zero_field (<["squeeze" := VBool true]> kw_dipole))
    = Ok (NDArray [3] (data (rows3 1 0 0 0))) ∧
  outcome (getBHv_level2 zero_field (delete "squeeze" kw_dipole))
    = Ok (NDArray [3] (data (rows3 1 0 0 0))) ∧
  np_squeeze (rows3 1 0 0 0) = NDArray [3] (data (rows3 1 0 0 0)).
Proof.
  apply (squeeze_single_instance zero_field kw_dipole tile_params_dipole (VBool true)
           (vec3 1 0 0) (rows3 1 0 0 0)).
  - apply zero_field_ignores_squeeze.
  - apply zero_field_shape.
  - vm_compute. reflexivity.
  - reflexivity.
  - reflexivity.
  - vm_compute. lia.
  - vm_compute. reflexivity.
Defined.



Example over_rank_example :
  getBHv_level2 zero_field kw_over_rank =
    MkRun [ <["orientation" := VRot (RotMany [unit_quat])]>
              (<["position" := VArr (rows3 1 0 0 0)]>
                 (<["moment" := VArr (rows3 1 0 0 1)]> kw_over_rank)) ]
          (Ok (NDArray [2; 3] (replicate 6 0%float))).
Proof. vm_compute. reflexivity. Qed.

(** * Facts about Collection *)

Import Collection.

Example check_duplicates_keeps_first :
  check_duplicates [box; sensor; box] = [box; sensor].
Proof. reflexivity. Qed.

Example only_allowed_drops_sensor :
  only_allowed_src_types [box; sensor] = [box].
Proof. reflexivity. Qed.

Example list_remove_first :
  list_remove box [sensor; box; box] = Some [sensor; box].
Proof. reflexivity. Qed.

Lemma keep_new_spec seen s x : x ∈ keep_new seen s ↔ x ∈ seen ∨ x = s.
Proof.
  unfold keep_new. case_decide as Hs.
  - split; [by left|]. intros [?| ->]; done.
  - by rewrite elem_of_app, list_elem_of_singleton.
Qed.

Lemma keep_new_NoDup seen s : NoDup seen → NoDup (keep_new seen s).
Proof.
  intros Hnd. unfold keep_new. case_decide as Hs; [done|].
  apply NoDup_app. split_and!; [done| |apply NoDup_singleton].
  intros x Hx Hxs. apply list_elem_of_singleton in Hxs. by subst.
Qed.

Lemma foldl_keep_new_spec l seen x :
  x ∈ foldl keep_new seen l ↔ x ∈ seen ∨ x ∈ l.
Proof.
  revert seen. induction l as [|s l IH]; intros seen; simpl.
  - rewrite elem_of_nil. tauto.
  - rewrite IH, keep_new_spec, elem_of_cons. tauto.
Qed.

Lemma foldl_keep_new_NoDup l seen : NoDup seen → NoDup (foldl keep_new seen l).
Proof.
  revert seen. induction l as [|s l IH]; intros seen Hnd; simpl; [done|].
  by apply IH, keep_new_NoDup.
Qed.

Lemma check_duplicates_NoDup l : NoDup (check_duplicates l).
Proof. apply foldl_keep_new_NoDup, NoDup_nil_2. Qed.

Lemma elem_of_check_duplicates l x : x ∈ check_duplicates l ↔ x ∈ l.
Proof. unfold check_duplicates. rewrite foldl_keep_new_spec, elem_of_nil. tauto. Qed.

Lemma list_remove_Some x l : x ∈ l → ∃ l', list_remove x l = Some l'.
Proof.
  induction l as [|y l IH]; intros Hin; [by apply elem_of_nil in Hin|].
  simpl. case_decide as Hy; [by eexists|].
  apply elem_of_cons in Hin as [->|Hin]; [done|].
  destruct (IH Hin) as [l' ->]. by eexists.
Qed.

Lemma list_remove_None x l : x ∉ l → list_remove x l = None.
Proof.
  induction l as [|y l IH]; intros Hin; [done|].
  apply not_elem_of_cons in Hin as [Hne Hin]. simpl.
  rewrite decide_False by done. by rewrite IH.
Qed.

Lemma list_remove_other x l l' y :
  list_remove x l = Some l' → y ≠ x → (y ∈ l' ↔ y ∈ l).
Proof.
  revert l'. induction l as [|z l IH]; intros l' Hrem Hne; [done|].
  simpl in Hrem. case_decide as Hz.
  - injection Hrem as <-. subst z. rewrite elem_of_cons. tauto.
  - destruct (list_remove x l) as [l0|]; [|done]. injection Hrem as <-.
    rewrite !elem_of_cons, IH; done.
Qed.

Lemma list_remove_NoDup x l l' :
  list_remove x l = Some l' → NoDup l → (x ∉ l') ∧ NoDup l'.
Proof.
  revert l'. induction l as [|z l IH]; intros l' Hrem Hnd; [done|].
  apply NoDup_cons in Hnd as [Hz Hnd]. simpl in Hrem. case_decide as Hzx.
  - injection Hrem as <-. by subst z.
  - destruct (list_remove x l) as [l0|] eqn:Hl; [|done]. injection Hrem as <-.
    destruct (IH _ eq_refl Hnd) as [Hx Hnd0]. split.
    + by apply not_elem_of_cons.
    + apply NoDup_cons. split; [|done].
      intros Hin. apply Hz. by apply (list_remove_other x l l0 z Hl).
Qed.

(** What the setter establishes, and with it the constructor: no object
    twice, supported source types only. *)
Lemma set_sources_invariant self srcs h :
  ∃ c, set_sources self srcs h !! self = Some c ∧
       NoDup (_sources c) ∧
       Forall (λ s, object_type s ∈ source_types) (_sources c).
Proof.
  unfold set_sources. eexists. split; [apply lookup_insert_eq|]. simpl. split.
  - apply NoDup_filter, check_duplicates_NoDup.
  - apply Forall_forall. intros s Hs.
    by apply list_elem_of_filter in Hs as [Hs _].
Qed.

(** What [add] establishes: no object twice.  The source types are not
    looked at. *)
Lemma add_NoDup self srcs h c :
  h !! self = Some c →
  ∃ c', add self srcs h = (Ok self, <[self := c']> h) ∧ NoDup (_sources c') ∧
        ∀ s, s ∈ _sources c' ↔ s ∈ _sources c ∨ s ∈ format_obj_input h srcs.
Proof.
  intros Hc. unfold add. rewrite Hc. eexists. split; [done|]. simpl. split.
  - apply check_duplicates_NoDup.
  - intros s. by rewrite elem_of_check_duplicates, elem_of_app.
Qed.

(** C8.  The constructor goes through the setter, which drops what is no
    supported source; [add] and [+] do not: after [c = Collection()],
    [c.add(sensor)] (or [c + sensor]) the sensor is a member of [c]. *)
Example add_keeps_unsupported_object :
  let '(c, h) := __init__ [] ∅ in
  sources c h = Ok [] ∧
  sources c (add c [Source sensor] h).2 = Ok [sensor] ∧
  sources c (__add__ c (Source sensor) h).2 = Ok [sensor] ∧
  (object_type sensor ∉ source_types) ∧
  sources c (set_sources c [Source sensor] h) = Ok [].
Proof.
  vm_compute. split_and!; try reflexivity.
  intros H. not_elem_of_concrete H.
Qed.

(** C10, as amended.  [c.add(s)] and [c + s] update the Collection object
    [c] itself: the heap afterwards differs from the heap before only at
    [c], whose source list now contains [s], and the reference returned is
    [c].  [c - s] does the same with the first occurrence of [s] removed
    when [s] is among the sources of [c] (so [s] is gone from a list that
    held it once); when it is not, ValueError is raised and nothing has
    changed. *)
Theorem add_and_sub_update_in_place h c col s :
  h !! c = Some col →
  (∃ col', add c [Source s] h = (Ok c, <[c := col']> h) ∧ s ∈ _sources col') ∧
  __add__ c (Source s) h = add c [Source s] h ∧
  (s ∈ _sources col →
     ∃ l, __sub__ c s h = (Ok c, <[c := Instance_ l]> h) ∧
          list_remove s (_sources col) = Some l ∧
          (∀ x, x ≠ s → (x ∈ l ↔ x ∈ _sources col)) ∧
          (NoDup (_sources col) → s ∉ l)) ∧
  (s ∉ _sources col → __sub__ c s h = (Raise ValueError, h)).
Proof.
  intros Hc. split_and!.
  - destruct (add_NoDup c [Source s] h col Hc) as (col' & Hadd & _ & Hmem).
    exists col'. split; [done|]. apply Hmem. right.
    unfold format_obj_input. cbn. apply list_elem_of_here.
  - unfold __add__. destruct (add_NoDup c [Source s] h col Hc) as (col' & -> & _). done.
  - intros Hin. destruct (list_remove_Some s _ Hin) as [l Hl].
    exists l. unfold __sub__, remove. rewrite Hc, Hl. split_and!; [done..| |].
    + intros x Hx. by apply (list_remove_other s).
    + intros Hnd. by destruct (list_remove_NoDup s _ l Hl Hnd).
  - intros Hnotin. unfold __sub__, remove. by rewrite Hc, list_remove_None.
Qed.

Lemma add_and_sub_update_in_place_witness :
  (∃ col', add 0 [Source box] heap_box = (Ok 0, <[0 := col']> heap_box) ∧
           box ∈ _sources col') ∧
  __add__ 0 (Source box) heap_box = add 0 [Source box] heap_box ∧
  (box ∈ [box] →
     ∃ l, __sub__ 0 box heap_box = (Ok 0, <[0 := Instance_ l]> heap_box) ∧
          list_remove box [box] = Some l ∧
          (∀ x, x ≠ box → (x ∈ l ↔ x ∈ [box])) ∧
          (NoDup [box] → box ∉ l)) ∧
  (box ∉ [box] → __sub__ 0 box heap_box = (Raise ValueError, heap_box)).
Proof.
  apply (add_and_sub_update_in_place heap_box 0 (Instance_ [box]) box).
  reflexivity.
Defined.

(** C10, counterexample: [c - s] for a source that is not in [c] returns
    nothing, it raises ValueError. *)
Lemma sub_of_absent_source_raises :
  let '(c, h) := __init__ [] ∅ in
  __sub__ c box h = (Raise ValueError, h) ∧ (__sub__ c box h).1 ≠ Ok c.
Proof. vm_compute. split; [reflexivity|discriminate]. Qed.

(** * Further properties of the field wrapper *)

(** ** What the [try] block raises *)

Lemma array_input_Raise kw key e :
  array_input kw key = Raise e →
  (e = KeyError key ∧ kw !! key = None) ∨ e = ValueError ∨ e = TypeError.
Proof.
  unfold array_input, getitem. destruct (kw !! key) as [v|]; cbn [mbind result_bind].
  - destruct v; cbn; intros; simplify_eq; auto.
  - intros; simplify_eq; auto.
Qed.

Lemma class_inputs_Raise kw src base e :
  class_inputs kw src base = Raise e →
  (∃ k, e = KeyError k ∧ kw !! k = None ∧ k ∈ class_keys) ∨ e = ValueError ∨ e = TypeError.
Proof.
  unfold class_inputs. intros H.
  repeat match type of H with
  | (if ?b then _ else _) = _ => destruct b
  | context [mbind _ (array_input ?kw ?k)] =>
      let Ha := fresh "Ha" in
      destruct (array_input kw k) eqn:Ha; cbn [mbind result_bind] in H
  end; simplify_eq.
  all: match goal with
       | Ha : array_input _ ?k = Raise _ |- _ =>
           apply array_input_Raise in Ha as [[-> Hnone]|[->| ->]]; [left|auto..];
           exists k; split_and!; [done..|unfold class_keys; elem_of_concrete]
       end.
Qed.

Lemma try_body_Raise kw e :
  try_body kw = Raise e →
  (∃ k, e = KeyError k ∧ kw !! k = None ∧ k ∈ indexed_keys)
  ∨ e = ValueError ∨ e = TypeError ∨ e = AttributeError.
Proof.
  unfold try_body, getitem. intros H.
  destruct (kw !! "source_type") as [src|] eqn:Hsrc; cbn [mbind result_bind] in H; cycle 1.
  { simplify_eq. left. exists "source_type". split_and!; [done..|].
    unfold indexed_keys. elem_of_concrete. }
  destruct (array_input kw "observer") as [poso|e0] eqn:Hobs; cbn [mbind result_bind] in H; cycle 1.
  { simplify_eq. apply array_input_Raise in Hobs as [[-> Hnone]|[->| ->]]; [left|auto..].
    exists "observer". split_and!; [done..|]. unfold indexed_keys. elem_of_concrete. }
  destruct (np_array (get kw "position" (VArr origin))) as [pos|e0] eqn:Hpos;
    cbn [mbind result_bind] in H; cycle 1.
  { simplify_eq. destruct (get kw "position" (VArr origin)); simplify_eq/=; auto. }
  destruct (call_as_quat (get kw "orientation" (VRot unit_rotation))) as [q|e0] eqn:Hq;
    cbn [mbind result_bind] in H; cycle 1.
  { simplify_eq. destruct (get kw "orientation" (VRot unit_rotation)); simplify_eq/=; auto. }
  destruct (class_inputs _ _ _) as [tp|e0] eqn:Hc; cbn [mbind result_bind] in H; [done|].
  simplify_eq. apply class_inputs_Raise in Hc as [(k & -> & Hnone & Hk)|[->| ->]]; auto.
  left. exists k. split_and!; [done..|]. by do 2 apply list_elem_of_further.
Qed.

Lemma class_inputs_first_missing kw tag base k :
  kwargs_typed kw →
  head (filter (λ k, kw !! k = None) (required_parameters tag)) = Some k →
  class_inputs kw (VStr tag) base = Raise (KeyError k).
Proof.
  intros Hty. unfold class_inputs, required_parameters. rewrite !py_eq_decide.
  repeat (let Htag := fresh "Htag" in case_decide as Htag;
    [rewrite (bool_decide_eq_true_2 _ Htag) |rewrite (bool_decide_eq_false_2 _ Htag)]).
  all: intros Hhead.
  all: array_input_cases Hty.
  all: repeat first
         [ rewrite filter_cons_True in Hhead by (simpl; congruence)
         | rewrite filter_cons_False in Hhead by (simpl; congruence) ].
  all: by simplify_eq/=.
Qed.

(** ** The registered keys, and keys the wrapper does not read *)

Lemma required_parameters_class tag k : k ∈ required_parameters tag → k ∈ class_keys.
Proof.
  unfold required_parameters, class_keys. repeat case_decide.
  all: intros Hin; rewrite ?elem_of_cons, ?elem_of_nil in Hin.
  all: repeat destruct Hin as [->|Hin]; try done; elem_of_concrete.
Qed.

Lemma class_inputs_keys kw tag poso pos q tp :
  class_inputs kw (VStr tag) (general_entries poso pos q) = Ok tp →
  tp.*1 = ["observer"; "position"; "orientation"] ++ required_parameters tag.
Proof.
  unfold class_inputs, required_parameters, general_entries. rewrite !py_eq_decide.
  repeat (let Htag := fresh "Htag" in case_decide as Htag;
    [rewrite (bool_decide_eq_true_2 _ Htag) |rewrite (bool_decide_eq_false_2 _ Htag)]).
  all: intros H; inv_result; done.
Qed.

Lemma try_block_insert_unread kw j v tp sq :
  j ∉ indexed_keys → j ≠ "position" → j ≠ "orientation" → j ≠ "squeeze" →
  try_block kw = Ok (tp, sq) →
  try_block (<[j := v]> kw) = Ok (tp, sq) ∧ j ∉ tp.*1.
Proof.
  intros Hj Hp Ho Hs Htry. split.
  - rewrite (try_block_squeeze _ _ _ Htry).
    replace (get kw "squeeze" (VBool true)) with (get (<[j := v]> kw) "squeeze" (VBool true))
      by (unfold get; by rewrite lookup_insert_ne).
    eapply try_block_ext; [| | |done].
    + intros k Hk. rewrite lookup_insert_ne; [done|]. by intros ->.
    + unfold get. by rewrite lookup_insert_ne.
    + unfold get. by rewrite lookup_insert_ne.
  - intros Hin. apply (registered_keys _ _ _ _ Htry) in Hin.
    unfold indexed_keys in Hj. rewrite !not_elem_of_cons in Hj.
    destruct Hj as (_ & Hobs & Hclass).
    rewrite elem_of_app, !elem_of_cons, elem_of_nil in Hin.
    destruct Hin as [[?|[?|[?|[]]]]|?]; done.
Qed.

Lemma try_block_insert_unread_Raise kw j v e :
  j ∉ indexed_keys → j ≠ "position" → j ≠ "orientation" →
  try_block kw = Raise e → try_block (<[j := v]> kw) = Raise e.
Proof.
  intros Hj Hp Ho Htry. eapply try_block_ext_Raise; [| | |done].
  - intros k Hk. rewrite lookup_insert_ne; [done|]. by intros ->.
  - unfold get. by rewrite lookup_insert_ne.
  - unfold get. by rewrite lookup_insert_ne.
Qed.

Lemma normalised_insert n (tp : tile_dict) rot kw j v :
  j ∉ tp.*1 → j ≠ "orientation" →
  normalised n tp rot (<[j := v]> kw) = <[j := v]> (normalised n tp rot kw).
Proof.
  intros Hj Ho. unfold normalised. rewrite tile_loop_insert by done.
  by rewrite (insert_insert_ne _ "orientation" j).
Qed.

(** ** Tiling twice *)








(** ** Lengths and shapes *)

Lemma size_gt_1_distinct (X : gset nat) : 1 < size X → ∃ a b, a ∈ X ∧ b ∈ X ∧ a ≠ b.
Proof.
  intros Hsize. destruct (size_pos_elem_of X) as [a Ha]; [lia|].
  destruct (size_pos_elem_of (X ∖ {[a]})) as [b Hb].
  { rewrite size_difference by (by apply singleton_subseteq_l).
    rewrite size_singleton. lia. }
  apply elem_of_difference in Hb as [Hb Hne]. rewrite elem_of_singleton in Hne.
  exists a, b. split_and!; [done..|]. by intros ->.
Qed.

Lemma normalised_observer_len kw tp sq obs rot :
  try_block kw = Ok (tp, sq) →
  size (list_to_set (batch_lengths tp.*2) : gset nat) ≤ 1 →
  kw !! "observer" = Some (VArr obs) → ndim obs ≤ 2 →
  ∃ o, normalised (batch_length tp) tp rot kw !! "observer" = Some (VArr o) ∧
       len o = Ok (batch_length tp).
Proof.
  intros Htry Hsize Hobs Hrank.
  destruct (tile_params_of_try_block _ _ _ Htry) as (Hnd & Hranks & _).
  pose proof Htry as Hbody. apply try_block_Ok, try_body_Ok in Hbody.
  destruct Hbody as (src & poso & pos & rot' & extra & _ & Hposo & _ & _ & _ & _ & Htp & _).
  unfold array_input, getitem in Hposo. rewrite Hobs in Hposo. injection Hposo as <-.
  assert (Hin : ("observer", (obs, 2)) ∈ tp).
  { subst tp. apply elem_of_app. left. unfold general_entries. elem_of_concrete. }
  exists (tiled (batch_length tp) obs 2). split.
  - by eapply normalised_lookup.
  - destruct (decide (ndim obs = 2)) as [Heq|Hne].
    + rewrite tiled_explicit by done.
      assert (Hl : leading obs ∈ batch_lengths tp.*2).
      { apply elem_of_batch_lengths; [done|]. exists "observer", obs, 2.
        split_and!; [done..|]. apply len_leading. lia. }
      rewrite len_leading by lia. f_equal. symmetry. by apply py_max_agreed.
    + apply tiled_len; [by right|lia].
Qed.

Lemma np_squeeze_batch B n : shape B = [n; 3] → n ≠ 1 → np_squeeze B = B.
Proof.
  intros Hs Hn. destruct B as [s d]. unfold np_squeeze. simpl in *. subst s.
  rewrite filter_cons_True by done. rewrite filter_cons_True by done. done.
Qed.

Section getBHv_further.

Variable getBH_level1 : gmap string value → result ndarray.

(** X1.  Whatever the keyword arguments: either [getBH_level1] is not
    called and the call raises (and what it raises is no KeyError), or
    [getBH_level1] is called exactly once and the outcome is its result,
    squeezed when [squeeze] (True when absent) is true. *)
Theorem no_field_without_one_call kw :
  (calls (getBHv_level2 getBH_level1 kw) = [] ∧
   ∃ e, outcome (getBHv_level2 getBH_level1 kw) = Raise e ∧ ∀ k, e ≠ KeyError k)
  ∨ (∃ kw', getBHv_level2 getBH_level1 kw =
       MkRun [kw'] (field_of getBH_level1 kw' (get kw "squeeze" (VBool true)))).
Proof.
  destruct (try_block kw) as [[tp sq]|e] eqn:Htry.
  - destruct (getBHv_level2_run getBH_level1 _ _ _ Htry) as (rot & _ & ->).
    cbv zeta. case_decide.
    + left. split; [done|]. by eexists.
    + right. eexists. by rewrite <- (try_block_squeeze _ _ _ Htry).
  - left. rewrite (getBHv_level2_Raise _ _ _ Htry). split; [done|].
    exists e. split; [done|]. intros k ->.
    unfold try_block in Htry. destruct (try_body kw) as [|[]]; done.
Qed.


(** X3.  For inputs of the documented kinds, when mandatory keys are
    missing the message names the first of them in the order the code
    reads them: [source_type], [observer], then the parameters of the
    source type; the others are not reported. *)
Theorem first_missing_key_is_named kw k :
  kwargs_typed kw →
  first_missing kw = Some k →
  getBHv_level2 getBH_level1 kw =
    MkRun [] (Raise (MagpylibBadUserInput (Missing_input_keys k))).
Proof.
  intros Hty Hfirst. apply getBHv_level2_Raise.
  cut (try_body kw = Raise (KeyError k)).
  { intros Hbody. unfold try_block. by rewrite Hbody. }
  unfold first_missing, mandatory_keys in Hfirst. unfold try_body, getitem.
  destruct (kw !! "source_type") as [src|] eqn:Hsrc; cycle 1.
  { rewrite filter_cons_True in Hfirst by done. by simplify_eq/=. }
  rewrite filter_cons_False in Hfirst by (simpl; congruence).
  destruct (well_typed_source src (Hty _ _ Hsrc)) as [tag ->].
  cbn [mbind result_bind].
  destruct (array_input_typed kw "observer" Hty) as [[Hobs ->]|(poso & Hobs & ->)].
  { unfold array_keys. elem_of_concrete. }
  { rewrite filter_cons_True in Hfirst by done. by simplify_eq/=. }
  rewrite filter_cons_False in Hfirst by (simpl; congruence).
  destruct (get_position_typed kw Hty) as [pos ->].
  destruct (get_orientation_typed kw Hty) as [rot ->].
  cbn [mbind result_bind np_array call_as_quat].
  by rewrite (class_inputs_first_missing kw tag _ k Hty Hfirst).
Qed.

(** X4.  Whatever the keyword arguments: a key named by the
    missing-input-keys error is one the wrapper reads with [kwargs[key]],
    and the call indeed lacks it. *)
Theorem reported_key_is_absent kw k :
  getBHv_level2 getBH_level1 kw =
    MkRun [] (Raise (MagpylibBadUserInput (Missing_input_keys k))) →
  kw !! k = None ∧ k ∈ indexed_keys.
Proof.
  intros Hrun. destruct (try_block kw) as [[tp sq]|e] eqn:Htry.
  - destruct (getBHv_level2_run getBH_level1 _ _ _ Htry) as (rot & _ & Heq).
    rewrite Heq in Hrun. cbv zeta in Hrun. case_decide; discriminate Hrun.
  - rewrite (getBHv_level2_Raise _ _ _ Htry) in Hrun. injection Hrun as ->.
    unfold try_block in Htry. destruct (try_body kw) as [|e] eqn:Hbody; [done|].
    apply try_body_Raise in Hbody as [(k' & -> & Hnone & Hk)|[->|[->| ->]]];
      by simplify_eq.
Qed.

(** X5.  The bad-array-input-lengths error is raised only when the [try]
    block went through and two registered inputs of their declared rank
    have different lengths, both in the set the message shows. *)
Theorem bad_lengths_only_on_mismatch kw lens :
  getBHv_level2 getBH_level1 kw =
    MkRun [] (Raise (MagpylibBadUserInput (bad_array_input_lengths lens))) →
  ∃ tp sq k1 v1 t1 n1 k2 v2 t2 n2,
    try_block kw = Ok (tp, sq) ∧
    (k1, (v1, t1)) ∈ tp ∧ ndim v1 = t1 ∧ len v1 = Ok n1 ∧ n1 ∈ lens ∧
    (k2, (v2, t2)) ∈ tp ∧ ndim v2 = t2 ∧ len v2 = Ok n2 ∧ n2 ∈ lens ∧
    n1 ≠ n2.
Proof.
  intros Hrun. destruct (try_block kw) as [[tp sq]|e] eqn:Htry.
  - destruct (getBHv_level2_run getBH_level1 _ _ _ Htry) as (rot & _ & Heq).
    rewrite Heq in Hrun. cbv zeta in Hrun. case_decide as Hsize; [|discriminate Hrun].
    injection Hrun as <-.
    destruct (tile_params_of_try_block _ _ _ Htry) as (_ & Hranks & _).
    destruct (size_gt_1_distinct _ Hsize) as (n1 & n2 & H1 & H2 & Hne).
    pose proof H1 as H1'. pose proof H2 as H2'.
    apply elem_of_list_to_set, elem_of_batch_lengths in H1' as (k1 & v1 & t1 & ? & ? & ?);
      [|done].
    apply elem_of_list_to_set, elem_of_batch_lengths in H2' as (k2 & v2 & t2 & ? & ? & ?);
      [|done].
    exists tp, sq, k1, v1, t1, n1, k2, v2, t2, n2. split_and!; done.
  - rewrite (getBHv_level2_Raise _ _ _ Htry) in Hrun. injection Hrun as ->.
    unfold try_block in Htry. destruct (try_body kw) as [|e] eqn:Hbody; [done|].
    apply try_body_Raise in Hbody as [(k' & -> & Hnone & Hk)|[->|[->| ->]]];
      by simplify_eq.
Qed.

(** X6.  An [orientation] that is no Rotation object (an array of
    quaternions, say) ends the call with the AttributeError of
    [rot.as_quat()]: only KeyError is turned into MagpylibBadUserInput.  It
    does so before the parameters of the source type are read, so also
    when some of them are missing. *)
Theorem orientation_must_be_a_Rotation kw src poso pos v :
  kw !! "source_type" = Some src →
  array_input kw "observer" = Ok poso →
  np_array (get kw "position" (VArr origin)) = Ok pos →
  kw !! "orientation" = Some v → (∀ rot, v ≠ VRot rot) →
  getBHv_level2 getBH_level1 kw = MkRun [] (Raise AttributeError).
Proof.
  intros Hsrc Hobs Hpos Hv Hrot. apply getBHv_level2_Raise.
  unfold try_block, try_body, getitem. rewrite Hsrc. cbn [mbind result_bind].
  rewrite Hobs. cbn [mbind result_bind]. rewrite Hpos. cbn [mbind result_bind].
  unfold get. rewrite Hv. cbn. destruct v; try done. by destruct (Hrot r).
Qed.

(** X7.  In the keyword arguments [getBH_level1] receives, observer,
    position and the parameters of the source type are arrays and the
    orientation is a Rotation of a sequence of quaternions; every other
    keyword ([source_type], [squeeze], [bh], a parameter of another source
    type, anything else) is there exactly as the caller passed it, or
    absent if the caller did not pass it. *)
Theorem other_keywords_are_forwarded kw tag kw' :
  kw !! "source_type" = Some (VStr tag) →
  calls (getBHv_level2 getBH_level1 kw) = [kw'] →
  (∀ k, k ∉ ["observer"; "position"; "orientation"] ++ required_parameters tag →
        kw' !! k = kw !! k) ∧
  (∀ k, k ∈ ["observer"; "position"] ++ required_parameters tag →
        ∃ a, kw' !! k = Some (VArr a)) ∧
  (∃ qs, kw' !! "orientation" = Some (VRot (RotMany qs))).
Proof.
  intros Hsrc Hcalls.
  destruct (getBHv_level2_calls _ _ _ Hcalls) as (tp & sq & rot & Htry & Hrot & _ & -> & _).
  destruct (tile_params_of_try_block _ _ _ Htry) as (Hnd & Hranks & _).
  pose proof Htry as Hbody. apply try_block_Ok, try_body_Ok in Hbody.
  destruct Hbody as (src & poso & pos & rot' & extra & Hsrc' & _ & _ & _ & _ & Hc & _ & _).
  rewrite Hsrc in Hsrc'. injection Hsrc' as <-.
  apply class_inputs_keys in Hc. split_and!.
  - intros k Hk. rewrite <- Hc in Hk. unfold normalised.
    rewrite lookup_insert_ne; cycle 1.
    { intros <-. apply Hk. rewrite Hc. elem_of_concrete. }
    by apply tile_loop_lookup_notin.
  - intros k Hk.
    assert (Hko : k ≠ "orientation").
    { intros ->. rewrite elem_of_app in Hk. destruct Hk as [Hk|Hk].
      - not_elem_of_concrete Hk.
      - apply required_parameters_class in Hk. unfold class_keys in Hk.
        not_elem_of_concrete Hk. }
    assert (Hin : k ∈ tp.*1).
    { rewrite Hc. rewrite elem_of_app in Hk. destruct Hk as [Hk|Hk].
      - apply elem_of_app. left. rewrite !elem_of_cons in *. tauto.
      - apply elem_of_app. by right. }
    apply list_elem_of_fmap in Hin as ([k' [v t]] & -> & Hin).
    exists (tiled (batch_length tp) v t). by eapply normalised_lookup.
  - unfold normalised. rewrite lookup_insert_eq. destruct rot; by eexists.
Qed.

(** X8.  [getBv] and [getHv] with the same keyword arguments: a [bh]
    among them is a TypeError in both.  Otherwise both fail with the
    exception of [getBHv_level2] on these arguments and call nothing, or
    both call [getBH_level1] once, with the arguments [getBHv_level2]
    would pass and [bh] True for [getBv], False for [getHv]. *)
Theorem getBv_getHv_differ_in_bh kw :
  match kw !! "bh" with
  | Some _ =>
      getBv getBH_level1 kw = MkRun [] (Raise TypeError) ∧
      getHv getBH_level1 kw = MkRun [] (Raise TypeError)
  | None =>
      (∃ e, getBHv_level2 getBH_level1 kw = MkRun [] (Raise e) ∧
            getBv getBH_level1 kw = MkRun [] (Raise e) ∧
            getHv getBH_level1 kw = MkRun [] (Raise e))
      ∨
      (∃ kw0 sq, calls (getBHv_level2 getBH_level1 kw) = [kw0] ∧ kw0 !! "bh" = None ∧
         getBv getBH_level1 kw =
           MkRun [<["bh" := VBool true]> kw0]
                 (field_of getBH_level1 (<["bh" := VBool true]> kw0) sq) ∧
         getHv getBH_level1 kw =
           MkRun [<["bh" := VBool false]> kw0]
                 (field_of getBH_level1 (<["bh" := VBool false]> kw0) sq))
  end.
Proof.
  unfold getBv, getHv, call_with_bh.
  destruct (kw !! "bh") as [v|] eqn:Hbh; [done|].
  assert (Hidx : "bh" ∉ indexed_keys).
  { unfold indexed_keys, class_keys. intros H. not_elem_of_concrete H. }
  destruct (try_block kw) as [[tp sq]|e] eqn:Htry.
  - assert (Hins : ∀ v, try_block (<["bh" := v]> kw) = Ok (tp, sq) ∧ "bh" ∉ tp.*1).
    { intros v. by apply try_block_insert_unread. }
    destruct (getBHv_level2_run getBH_level1 _ _ _ Htry) as (rot & Hrot & ->).
    destruct (getBHv_level2_run getBH_level1 _ _ _ (proj1 (Hins (VBool true))))
      as (rot1 & Hrot1 & ->).
    destruct (getBHv_level2_run getBH_level1 _ _ _ (proj1 (Hins (VBool false))))
      as (rot2 & Hrot2 & ->).
    unfold get in Hrot1, Hrot2. rewrite lookup_insert_ne in Hrot1, Hrot2 by done.
    assert (rot1 = rot) as -> by (unfold get in Hrot; congruence).
    assert (rot2 = rot) as -> by (unfold get in Hrot; congruence).
    cbv zeta. case_decide as Hsize.
    + left. by eexists.
    + right. destruct (Hins (VBool true)) as [_ Hnot].
      rewrite !normalised_insert by done.
      eexists _, sq. split_and!; [done| |done..].
      unfold normalised. rewrite lookup_insert_ne by done.
      by rewrite tile_loop_lookup_notin.
  - left. exists e.
    rewrite !(getBHv_level2_Raise _ _ _ (try_block_insert_unread_Raise _ "bh" _ _ Hidx
               ltac:(done) ltac:(done) Htry)).
    by rewrite (getBHv_level2_Raise _ _ _ Htry).
Qed.

(** X9.  When [getBH_level1] does not look at [squeeze]: a call without
    [squeeze] has the outcome of the call with [squeeze=True], which is
    the outcome of the call with [squeeze=False] with [np.squeeze] applied
    to the array; an exception is the same in all three. *)
Theorem squeeze_defaults_to_true kw :
  (∀ k v, getBH_level1 (<["squeeze" := v]> k) = getBH_level1 (delete "squeeze" k)) →
  outcome (getBHv_level2 getBH_level1 (delete "squeeze" kw)) =
    outcome (getBHv_level2 getBH_level1 (<["squeeze" := VBool true]> kw)) ∧
  outcome (getBHv_level2 getBH_level1 (<["squeeze" := VBool true]> kw)) =
    np_squeeze <$> outcome (getBHv_level2 getBH_level1 (<["squeeze" := VBool false]> kw)).
Proof.
  intros Hignore. split; [|by apply squeeze_flag_squeezes_result].
  destruct (try_block kw) as [[tp sq]|e] eqn:Htry.
  - destruct (decide (size (list_to_set (batch_lengths tp.*2) : gset nat) ≤ 1))
      as [Hsize|Hsize].
    + destruct (getBHv_level2_squeeze getBH_level1 _ _ _ (VBool true) Htry Hsize)
        as (rot & Hrot & ->).
      destruct (getBHv_level2_no_squeeze getBH_level1 _ _ _ Htry Hsize) as (rot' & Hrot' & ->).
      assert (rot' = rot) as -> by congruence.
      cbn [outcome]. unfold field_of. by rewrite Hignore.
    + destruct (getBHv_level2_run getBH_level1 _ _ _
                  (try_block_insert_squeeze _ _ _ (VBool true) Htry)) as (? & _ & ->).
      destruct (getBHv_level2_run getBH_level1 _ _ _ (try_block_delete_squeeze _ _ _ Htry))
        as (? & _ & ->).
      cbv zeta. by rewrite !decide_True by lia.
  - assert (Hins : try_block (<["squeeze" := VBool true]> kw) = Raise e).
    { eapply try_block_ext_Raise; [| | |done].
      - intros k Hk. apply indexed_not_squeeze in Hk. by rewrite lookup_insert_ne.
      - unfold get. by rewrite lookup_insert_ne.
      - unfold get. by rewrite lookup_insert_ne. }
    assert (Hdel : try_block (delete "squeeze" kw) = Raise e).
    { apply (try_block_ext_Raise _ kw); [| | |done].
      - intros k Hk. apply indexed_not_squeeze in Hk. by rewrite lookup_delete_ne.
      - unfold get. by rewrite lookup_delete_ne.
      - unfold get. by rewrite lookup_delete_ne. }
    by rewrite (getBHv_level2_Raise _ _ _ Hins), (getBHv_level2_Raise _ _ _ Hdel).
Qed.

(** X10.  Let [getBH_level1] ignore [squeeze] and return one 3-vector
    per observer row.  For a batch length [N] other than 1, the result of
    the call with [squeeze=False] has shape (N,3), and the calls with
    [squeeze=True] and without [squeeze] return the same array. *)
Theorem squeeze_keeps_a_batch kw tp sq obs B :
  (∀ k v, getBH_level1 (<["squeeze" := v]> k) = getBH_level1 (delete "squeeze" k)) →
  (∀ k o n F, k !! "observer" = Some (VArr o) → len o = Ok n →
              getBH_level1 k = Ok F → shape F = [n; 3]) →
  try_block kw = Ok (tp, sq) →
  batch_length tp ≠ 1 →
  kw !! "observer" = Some (VArr obs) → ndim obs ≤ 2 →
  outcome (getBHv_level2 getBH_level1 (<["squeeze" := VBool false]> kw)) = Ok B →
  shape B = [batch_length tp; 3] ∧
  outcome (getBHv_level2 getBH_level1 (<["squeeze" := VBool true]> kw)) = Ok B ∧
  outcome (getBHv_level2 getBH_level1 (delete "squeeze" kw)) = Ok B.
Proof.
  intros Hignore Hshape Htry HN Hobs Hrank HB.
  destruct (decide (size (list_to_set (batch_lengths tp.*2) : gset nat) ≤ 1))
    as [Hsize|Hsize]; cycle 1.
  { exfalso.
    pose proof (try_block_insert_squeeze _ _ _ (VBool false) Htry) as Htry'.
    destruct (getBHv_level2_run getBH_level1 _ _ _ Htry') as (? & _ & Hrun).
    rewrite Hrun in HB. cbv zeta in HB. rewrite decide_True in HB by lia. done. }
  destruct (getBHv_level2_squeeze getBH_level1 _ _ _ (VBool false) Htry Hsize)
    as (rot & Hrot & HF).
  destruct (getBHv_level2_squeeze getBH_level1 _ _ _ (VBool true) Htry Hsize)
    as (rot1 & Hrot1 & ->).
  destruct (getBHv_level2_no_squeeze getBH_level1 _ _ _ Htry Hsize) as (rot2 & Hrot2 & ->).
  assert (rot1 = rot) as -> by congruence. assert (rot2 = rot) as -> by congruence.
  rewrite HF in HB. cbn [outcome] in *. unfold field_of in *.
  rewrite Hignore in HB |- *. set (nk := normalised _ _ _ _) in *.
  destruct (getBH_level1 (delete "squeeze" nk)) as [F|] eqn:HF1; [|done].
  cbn [mbind result_bind truthy] in *. injection HB as ->.
  assert (HshapeB : shape B = [batch_length tp; 3]).
  { destruct (normalised_observer_len kw tp sq obs rot Htry Hsize Hobs Hrank)
      as (o & Ho & Hlen).
    eapply (Hshape (<["squeeze" := VBool false]> nk) o); [|done|].
    - by rewrite lookup_insert_ne.
    - by rewrite Hignore. }
  by rewrite (np_squeeze_batch B _ HshapeB HN).
Qed.


End getBHv_further.

(** ** At concrete calls *)


Lemma first_missing_key_is_named_witness :
  getBHv_level2 zero_field kw_line_bare =
    MkRun [] (Raise (MagpylibBadUserInput (Missing_input_keys "current"))).
Proof.
  apply (first_missing_key_is_named zero_field kw_line_bare "current").
  - typed_concrete.
  - vm_compute. reflexivity.
Defined.

Lemma reported_key_is_absent_witness :
  kw_missing !! "moment" = None ∧ "moment" ∈ indexed_keys.
Proof.
  apply (reported_key_is_absent zero_field kw_missing "moment").
  vm_compute. reflexivity.
Defined.

Lemma bad_lengths_only_on_mismatch_witness :
  ∃ tp sq k1 v1 t1 n1 k2 v2 t2 n2,
    try_block kw_mismatch = Ok (tp, sq) ∧
    (k1, (v1, t1)) ∈ tp ∧ ndim v1 = t1 ∧ len v1 = Ok n1 ∧ n1 ∈ (list_to_set [3; 5] : gset nat) ∧
    (k2, (v2, t2)) ∈ tp ∧ ndim v2 = t2 ∧ len v2 = Ok n2 ∧ n2 ∈ (list_to_set [3; 5] : gset nat) ∧
    n1 ≠ n2.
Proof.
  apply (bad_lengths_only_on_mismatch zero_field kw_mismatch (list_to_set [3; 5])).
  vm_compute. reflexivity.
Defined.

Lemma orientation_must_be_a_Rotation_witness :
  getBHv_level2 zero_field kw_quaternion_array = MkRun [] (Raise AttributeError).
Proof.
  apply (orientation_must_be_a_Rotation zero_field kw_quaternion_array (VStr "Dipole")
           (vec3 1 0 0) origin (VArr (NDArray [4] [0; 0; 0; 1]%float))).
  - reflexivity.
  - reflexivity.
  - reflexivity.
  - reflexivity.
  - intros rot. discriminate.
Defined.

Lemma other_keywords_are_forwarded_witness :
  (∀ k, k ∉ ["observer"; "position"; "orientation"] ++ required_parameters "Dipole" →
        kw_dipole_normalised !! k = kw_dipole !! k) ∧
  (∀ k, k ∈ ["observer"; "position"] ++ required_parameters "Dipole" →
        ∃ a, kw_dipole_normalised !! k = Some (VArr a)) ∧
  (∃ qs, kw_dipole_normalised !! "orientation" = Some (VRot (RotMany qs))).
Proof.
  apply (other_keywords_are_forwarded zero_field kw_dipole "Dipole" kw_dipole_normalised).
  - reflexivity.
  - vm_compute. reflexivity.
Defined.

Lemma squeeze_defaults_to_true_witness :
  outcome (getBHv_level2 zero_field (delete "squeeze" kw_dipole)) =
    outcome (getBHv_level2 zero_field (<["squeeze" := VBool true]> kw_dipole)) ∧
  outcome (getBHv_level2 zero_field (<["squeeze" := VBool true]> kw_dipole)) =
    np_squeeze <$> outcome (getBHv_level2 zero_field (<["squeeze" := VBool false]> kw_dipole)).
Proof.
  apply (squeeze_defaults_to_true zero_field kw_dipole). apply zero_field_ignores_squeeze.
Defined.

Lemma squeeze_keeps_a_batch_witness :
  shape (NDArray [2; 3] (replicate 6 0%float)) = [batch_length tile_params_batch; 3] ∧
  outcome (getBHv_level2 zero_field (<["squeeze" := VBool true]> kw_batch))
    = Ok (NDArray [2; 3] (replicate 6 0%float)) ∧
  outcome (getBHv_level2 zero_field (delete "squeeze" kw_batch))
    = Ok (NDArray [2; 3] (replicate 6 0%float)).
Proof.
  apply (squeeze_keeps_a_batch zero_field kw_batch tile_params_batch (VBool true)
           (rows3 2 1 0 0) (NDArray [2; 3] (replicate 6 0%float))).
  - apply zero_field_ignores_squeeze.
  - apply zero_field_shape.
  - vm_compute. reflexivity.
  - vm_compute. lia.
  - reflexivity.
  - vm_compute. lia.
  - vm_compute. reflexivity.
Defined.


(** * Further properties of Collection *)

(** ** With the lists by value *)

Lemma list_remove_split x l l' :
  list_remove x l = Some l' ↔ ∃ l1 l2, l = l1 ++ x :: l2 ∧ (x ∉ l1) ∧ l' = l1 ++ l2.
Proof.
  revert l'. induction l as [|y l IH]; intros l'; simpl.
  - split; [done|]. intros (l1 & l2 & Hl & _). by destruct l1.
  - case_decide as Hy.
    + subst y. split.
      * intros [= <-]. exists [], l. split_and!; [done| |done]. apply not_elem_of_nil.
      * intros (l1 & l2 & Hl & Hnotin & ->). destruct l1 as [|z l1].
        -- by simplify_eq/=.
        -- simplify_eq/=. exfalso. apply Hnotin, list_elem_of_here.
    + split.
      * destruct (list_remove x l) as [l0|]; [|done]. intros [= <-].
        destruct (proj1 (IH l0) eq_refl) as (l1 & l2 & -> & Hnotin & ->).
        exists (y :: l1), l2. split_and!; [done| |done].
        apply not_elem_of_cons. split; [by intros ->|done].
      * intros (l1 & l2 & Hl & Hnotin & ->). destruct l1 as [|z l1]; simplify_eq/=.
        apply not_elem_of_cons in Hnotin as [_ Hnotin].
        rewrite (proj2 (IH (l1 ++ l2))); [done|]. by exists l1, l2.
Qed.

Lemma foldl_keep_new_fresh l seen :
  NoDup (seen ++ l) → foldl keep_new seen l = seen ++ l.
Proof.
  revert seen. induction l as [|s l IH]; intros seen Hnd; simpl.
  - by rewrite app_nil_r.
  - replace (seen ++ s :: l) with ((seen ++ [s]) ++ l) in * by (by rewrite <- app_assoc).
    unfold keep_new at 2. rewrite decide_False; [by apply IH|].
    intros Hin. apply NoDup_app in Hnd as (Hnd & _ & _).
    apply NoDup_app in Hnd as (_ & Hdisj & _). apply (Hdisj s Hin), list_elem_of_here.
Qed.

Lemma check_duplicates_NoDup_id l : NoDup l → check_duplicates l = l.
Proof. intros Hnd. unfold check_duplicates. by rewrite foldl_keep_new_fresh. Qed.

Lemma add_fresh h c col srcs :
  h !! c = Some col →
  NoDup (_sources col ++ format_obj_input h srcs) →
  add c srcs h = (Ok c, <[c := Instance_ (_sources col ++ format_obj_input h srcs)]> h).
Proof. intros Hc Hnd. unfold add. by rewrite Hc, check_duplicates_NoDup_id. Qed.

(** X12.  [c.remove(s)] for a source of [c] takes out its first
    occurrence and nothing else of [c]: the sources before it keep their
    index, the sources after it move down by one. *)
Theorem remove_takes_first_occurrence h c col s :
  h !! c = Some col → s ∈ _sources col →
  ∃ l1 l2 h',
    _sources col = l1 ++ s :: l2 ∧ (s ∉ l1) ∧
    remove c s h = (Ok c, h') ∧ sources c h' = Ok (l1 ++ l2) ∧
    ∀ i, __getitem__ c i h' =
         if decide (i < length l1) then __getitem__ c i h else __getitem__ c (S i) h.
Proof.
  intros Hc Hin. destruct (list_remove_Some s _ Hin) as [l Hl].
  pose proof Hl as Hsplit. apply list_remove_split in Hsplit as (l1 & l2 & Hcol & Hnotin & ->).
  exists l1, l2, (<[c := Instance_ (l1 ++ l2)]> h). split_and!; [done..| | |].
  - unfold remove. by rewrite Hc, Hl.
  - unfold sources. by rewrite lookup_insert_eq.
  - intros i. unfold __getitem__. rewrite lookup_insert_eq, Hc, Hcol. cbn [_sources].
    case_decide as Hi.
    + by rewrite !lookup_app_l by done.
    + rewrite !lookup_app_r by lia.
      replace (S i - length l1) with (S (i - length l1)) by lia. done.
Qed.

Lemma remove_takes_first_occurrence_witness :
  ∃ l1 l2 h',
    [box] = l1 ++ box :: l2 ∧ (box ∉ l1) ∧
    remove 0 box heap_box = (Ok 0, h') ∧ sources 0 h' = Ok (l1 ++ l2) ∧
    ∀ i, __getitem__ 0 i h' =
         if decide (i < length l1) then __getitem__ 0 i heap_box
         else __getitem__ 0 (S i) heap_box.
Proof.
  apply (remove_takes_first_occurrence heap_box 0 (Instance_ [box]) box).
  - reflexivity.
  - apply list_elem_of_here.
Defined.

(** X13.  [c.add(...)] with objects that are distinct and not yet in [c]
    puts them at the end, in the order given: the sources [c] held keep
    their index, the i-th new one is at index [len(old) + i]. *)
Theorem add_appends_new_sources h c col srcs :
  h !! c = Some col →
  NoDup (_sources col ++ format_obj_input h srcs) →
  add c srcs h = (Ok c, <[c := Instance_ (_sources col ++ format_obj_input h srcs)]> h) ∧
  (∀ i, i < length (_sources col) → __getitem__ c i (add c srcs h).2 = __getitem__ c i h) ∧
  (∀ i s, format_obj_input h srcs !! i = Some s →
          __getitem__ c (length (_sources col) + i) (add c srcs h).2 = Ok s).
Proof.
  intros Hc Hnd. rewrite (add_fresh h c col srcs Hc Hnd). split_and!; [done| |].
  - intros i Hi. unfold __getitem__. cbn [snd]. rewrite lookup_insert_eq, Hc. cbn [_sources].
    by rewrite lookup_app_l.
  - intros i s Hs. unfold __getitem__. cbn [snd]. rewrite lookup_insert_eq. cbn [_sources].
    rewrite lookup_app_r by lia.
    replace (length (_sources col) + i - length (_sources col)) with i by lia.
    by rewrite Hs.
Qed.

Lemma add_appends_new_sources_witness :
  add 0 [Source sphere] heap_box = (Ok 0, <[0 := Instance_ [box; sphere]]> heap_box) ∧
  (∀ i, i < 1 → __getitem__ 0 i (add 0 [Source sphere] heap_box).2 = __getitem__ 0 i heap_box) ∧
  (∀ i s, [sphere] !! i = Some s →
          __getitem__ 0 (1 + i) (add 0 [Source sphere] heap_box).2 = Ok s).
Proof.
  apply (add_appends_new_sources heap_box 0 (Instance_ [box]) [Source sphere]).
  - reflexivity.
  - cbn. repeat (apply NoDup_cons_2; [rewrite ?not_elem_of_cons, ?elem_of_nil; naive_solver|]).
    apply NoDup_nil_2.
Defined.

(** X14.  For a Collection without duplicates, adding a source that is
    not in it and removing it again, with [add] and [remove] or with [+]
    and [-], gives back the Collection, and the heap, as it was. *)
Theorem add_then_remove_restores h c col s :
  h !! c = Some col → NoDup (_sources col) → s ∉ _sources col →
  remove c s (add c [Source s] h).2 = (Ok c, h) ∧
  __sub__ c s (__add__ c (Source s) h).2 = (Ok c, h).
Proof.
  intros Hc Hnd Hnotin.
  assert (Hnd' : NoDup (_sources col ++ format_obj_input h [Source s])).
  { cbn. apply NoDup_app. split_and!; [done| |apply NoDup_singleton].
    intros x Hx Hxs. apply list_elem_of_singleton in Hxs. by subst. }
  assert (Hrem : remove c s (add c [Source s] h).2 = (Ok c, h)).
  { rewrite (add_fresh h c col [Source s] Hc Hnd').
    cbn [snd]. unfold remove. rewrite lookup_insert_eq. cbn.
    rewrite (proj2 (list_remove_split s (_sources col ++ [s]) (_sources col))); cycle 1.
    { exists (_sources col), []. by rewrite app_nil_r. }
    rewrite insert_insert_eq. destruct col. by rewrite insert_id. }
  split; [done|].
  unfold __sub__, __add__. rewrite (add_fresh h c col [Source s] Hc Hnd') in Hrem |- *.
  cbn [snd] in Hrem |- *. by rewrite Hrem.
Qed.

Lemma add_then_remove_restores_witness :
  remove 0 sphere (add 0 [Source sphere] heap_box).2 = (Ok 0, heap_box) ∧
  __sub__ 0 sphere (__add__ 0 (Source sphere) heap_box).2 = (Ok 0, heap_box).
Proof.
  apply (add_then_remove_restores heap_box 0 (Instance_ [box]) sphere).
  - reflexivity.
  - apply NoDup_singleton.
  - cbn. rewrite not_elem_of_cons, elem_of_nil. split; [discriminate|tauto].
Defined.

(** X15.  For a Collection without duplicates, removing a source that is
    in it and adding it again moves the source to the end: the other
    sources keep their order. *)
Theorem remove_then_add_moves_to_the_end h c col s l1 l2 :
  h !! c = Some col → NoDup (_sources col) → _sources col = l1 ++ s :: l2 →
  ∃ h1 h2, remove c s h = (Ok c, h1) ∧ add c [Source s] h1 = (Ok c, h2) ∧
           sources c h2 = Ok (l1 ++ l2 ++ [s]).
Proof.
  intros Hc Hnd Hcol.
  assert (Hnotin : (s ∉ l1) ∧ (s ∉ l2) ∧ NoDup (l1 ++ l2)).
  { rewrite Hcol in Hnd. apply NoDup_app in Hnd as (Hnd1 & Hdisj & Hnd2).
    apply NoDup_cons in Hnd2 as [Hs2 Hnd2]. split_and!; [|done|].
    - intros Hs1. apply (Hdisj s Hs1), list_elem_of_here.
    - apply NoDup_app. split_and!; [done| |done].
      intros x Hx1 Hx2. apply (Hdisj x Hx1). by apply list_elem_of_further. }
  destruct Hnotin as (Hs1 & Hs2 & Hnd12).
  eexists _, _. split_and!.
  - unfold remove. rewrite Hc.
    by rewrite (proj2 (list_remove_split s (_sources col) (l1 ++ l2))) by (by exists l1, l2).
  - unfold add. rewrite lookup_insert_eq. reflexivity.
  - unfold sources. rewrite lookup_insert_eq. cbn.
    rewrite check_duplicates_NoDup_id; [by rewrite <- app_assoc|].
    apply NoDup_app. split_and!; [done| |apply NoDup_singleton].
    intros x Hx Hxs. apply list_elem_of_singleton in Hxs. subst x.
    apply elem_of_app in Hx as [?|?]; done.
Qed.

Lemma remove_then_add_moves_to_the_end_witness :
  ∃ h1 h2, remove 0 box heap_two = (Ok 0, h1) ∧ add 0 [Source box] h1 = (Ok 0, h2) ∧
           sources 0 h2 = Ok ([] ++ [sphere] ++ [box]).
Proof.
  apply (remove_then_add_moves_to_the_end heap_two 0 (Instance_ [box; sphere]) box [] [sphere]).
  - reflexivity.
  - repeat (apply NoDup_cons_2; [rewrite ?not_elem_of_cons, ?elem_of_nil; naive_solver|]).
    apply NoDup_nil_2.
  - reflexivity.
Defined.

(** ** With the lists by reference: no duplicates *)

Lemma sources_Ok c st l :
  CollectionRef.sources c st = Ok l ↔
  ∃ i, CollectionRef.instances st !! c = Some i ∧
       CollectionRef.lists st !! CollectionRef._sources i = Some l.
Proof.
  unfold CollectionRef.sources, CollectionRef.sources_list.
  destruct (CollectionRef.instances st !! c) as [i|]; simpl.
  - destruct (CollectionRef.lists st !! _) as [l0|] eqn:Hl; split.
    + intros [= ->]. by exists i.
    + intros (i' & [= <-] & Hl'). congruence.
    + done.
    + intros (i' & [= <-] & Hl'). congruence.
  - split; [done|]. by intros (i & ? & _).
Qed.

Lemma list_remove_keeps_NoDup x (l l' : list obj) :
  list_remove x l = Some l' → NoDup l → NoDup l'.
Proof. intros Hrem Hnd. by destruct (list_remove_NoDup x l l' Hrem Hnd). Qed.

Lemma step_lists_NoDup st o : lists_NoDup st → lists_NoDup (CollectionRef.step st o).
Proof.
  intros Hinv. unfold lists_NoDup in *.
  assert (Hnew : ∀ l st' self, NoDup l → map_Forall (λ _ l, NoDup l) (CollectionRef.lists st') →
            map_Forall (λ _ l, NoDup l)
              (CollectionRef.lists (CollectionRef.bind_sources self
                 (CollectionRef.new_list l st').1 (CollectionRef.new_list l st').2))).
  { intros l st' self Hl Hst'. cbn. by apply map_Forall_insert_2. }
  assert (Hadd : ∀ c srcs, map_Forall (λ _ l, NoDup l)
                   (CollectionRef.lists (CollectionRef.add c srcs st).2)).
  { intros c srcs. unfold CollectionRef.add.
    destruct (CollectionRef.sources_list c st) as [l|]; [|done].
    apply (Hnew _ st c); [apply check_duplicates_NoDup|done]. }
  assert (Hrem : ∀ c s, map_Forall (λ _ l, NoDup l)
                   (CollectionRef.lists (CollectionRef.remove c s st).2)).
  { intros c s. unfold CollectionRef.remove.
    destruct (CollectionRef.instances st !! c) as [i|]; [|done].
    destruct (CollectionRef.lists st !! CollectionRef._sources i) as [l|] eqn:Hl; [|done].
    destruct (list_remove s l) as [l'|] eqn:Hrem; [|done].
    cbn. apply map_Forall_insert_2; [|done].
    eapply list_remove_keeps_NoDup; [done|]. by apply (Hinv _ _ Hl). }
  assert (Hset : ∀ c srcs, map_Forall (λ _ l, NoDup l)
                   (CollectionRef.lists (CollectionRef.set_sources c srcs st))).
  { intros c srcs. apply (Hnew _ st c); [|done].
    apply NoDup_filter, check_duplicates_NoDup. }
  destruct o as [srcs|c srcs|c srcs|c s|c s|c s|c]; cbn [CollectionRef.step].
  - apply Hset.
  - apply Hset.
  - apply Hadd.
  - apply Hrem.
  - unfold CollectionRef.__add__. specialize (Hadd c [s]).
    by destruct (CollectionRef.add c [s] st) as [[?|?] ?].
  - unfold CollectionRef.__sub__. specialize (Hrem c s).
    by destruct (CollectionRef.remove c s st) as [[?|?] ?].
  - unfold CollectionRef.copy. by destruct (CollectionRef.instances st !! c).
Qed.

Lemma run_snoc ops o :
  CollectionRef.run (ops ++ [o]) = CollectionRef.step (CollectionRef.run ops) o.
Proof. unfold CollectionRef.run. by rewrite foldl_app. Qed.

Lemma run_lists_NoDup ops : lists_NoDup (CollectionRef.run ops).
Proof.
  induction ops as [|o ops IH] using rev_ind.
  - unfold lists_NoDup. cbn. apply map_Forall_empty.
  - rewrite run_snoc. by apply step_lists_NoDup.
Qed.

(** X16.  After any sequence of constructor calls, assignments to
    [sources], [add], [remove], [+], [-] and [copy], starting with no
    Collection, no Collection holds an object twice. *)
Theorem sources_never_hold_duplicates ops c l :
  CollectionRef.sources c (CollectionRef.run ops) = Ok l → NoDup l.
Proof.
  intros Hl. apply sources_Ok in Hl as (i & _ & Hl).
  by apply (run_lists_NoDup ops _ _ Hl).
Qed.

Lemma sources_never_hold_duplicates_witness : NoDup [box].
Proof.
  apply (sources_never_hold_duplicates
           [CollectionRef.New [Source box; Source box]] 0 [box]).
  vm_compute. reflexivity.
Defined.

(** ** A copy and its original *)

Lemma copy_Ok st c c2 st2 :
  CollectionRef.copy c st = (Ok c2, st2) →
  ∃ i, CollectionRef.instances st !! c = Some i ∧
       c2 = fresh (dom (CollectionRef.instances st)) ∧ c2 ≠ c ∧
       st2 = CollectionRef.Store (CollectionRef.lists st)
               (<[c2 := i]> (CollectionRef.instances st)).
Proof.
  unfold CollectionRef.copy. destruct (CollectionRef.instances st !! c) as [i|] eqn:Hi; [|done].
  intros [= <- <-]. exists i. split_and!; [done..| |done].
  intros Heq. apply (is_fresh (dom (CollectionRef.instances st))).
  rewrite Heq. by apply elem_of_dom_2 in Hi.
Qed.

Lemma copy_sources_list st c c2 st2 :
  CollectionRef.copy c st = (Ok c2, st2) →
  CollectionRef.sources_list c2 st2 = CollectionRef.sources_list c st ∧
  CollectionRef.sources_list c st2 = CollectionRef.sources_list c st.
Proof.
  intros Hcopy. apply copy_Ok in Hcopy as (i & Hi & _ & Hne & ->).
  unfold CollectionRef.sources_list. cbn.
  rewrite lookup_insert_eq, lookup_insert_ne, Hi by done. done.
Qed.

(** X17.  [c.copy()] is a new Collection with the sources of [c], bound
    to the same list: a source removed from the copy is removed from [c],
    and a source removed from [c] is removed from the copy. *)
Theorem copy_shares_the_source_list st c l :
  CollectionRef.sources c st = Ok l →
  ∃ c2 st2,
    CollectionRef.copy c st = (Ok c2, st2) ∧ c2 ≠ c ∧
    CollectionRef.sources c2 st2 = Ok l ∧ CollectionRef.sources c st2 = Ok l ∧
    (∀ s l', list_remove s l = Some l' →
       ∃ st3, CollectionRef.remove c2 s st2 = (Ok c2, st3) ∧
              CollectionRef.sources c2 st3 = Ok l' ∧ CollectionRef.sources c st3 = Ok l') ∧
    (∀ s l', list_remove s l = Some l' →
       ∃ st3, CollectionRef.remove c s st2 = (Ok c, st3) ∧
              CollectionRef.sources c st3 = Ok l' ∧ CollectionRef.sources c2 st3 = Ok l').
Proof.
  intros Hl. apply sources_Ok in Hl as (i & Hi & Hl).
  set (c2 := fresh (dom (CollectionRef.instances st))).
  assert (Hc2 : c2 ≠ c).
  { intros Heq. apply (is_fresh (dom (CollectionRef.instances st))).
    fold c2. rewrite Heq. by apply elem_of_dom_2 in Hi. }
  set (st2 := CollectionRef.Store (CollectionRef.lists st)
                (<[c2 := i]> (CollectionRef.instances st))).
  assert (Hi2 : CollectionRef.instances st2 !! c2 = Some i) by apply lookup_insert_eq.
  assert (Hi1 : CollectionRef.instances st2 !! c = Some i).
  { cbn. by rewrite lookup_insert_ne. }
  exists c2, st2. split_and!.
  - unfold CollectionRef.copy. by rewrite Hi.
  - done.
  - apply sources_Ok. by exists i.
  - apply sources_Ok. by exists i.
  - intros s l' Hrem. eexists. split_and!.
    + unfold CollectionRef.remove. rewrite Hi2. cbn [CollectionRef.lists st2].
      by rewrite Hl, Hrem.
    + apply sources_Ok. exists i. split; [done|]. cbn. apply lookup_insert_eq.
    + apply sources_Ok. exists i. split; [done|]. cbn. apply lookup_insert_eq.
  - intros s l' Hrem. eexists. split_and!.
    + unfold CollectionRef.remove. rewrite Hi1. cbn [CollectionRef.lists st2].
      by rewrite Hl, Hrem.
    + apply sources_Ok. exists i. split; [done|]. cbn. apply lookup_insert_eq.
    + apply sources_Ok. exists i. split; [done|]. cbn. apply lookup_insert_eq.
Qed.

Lemma copy_shares_the_source_list_witness :
  ∃ c2 st2,
    CollectionRef.copy 0 store_two = (Ok c2, st2) ∧ c2 ≠ 0 ∧
    CollectionRef.sources c2 st2 = Ok [box; sphere] ∧
    CollectionRef.sources 0 st2 = Ok [box; sphere] ∧
    (∀ s l', list_remove s [box; sphere] = Some l' →
       ∃ st3, CollectionRef.remove c2 s st2 = (Ok c2, st3) ∧
              CollectionRef.sources c2 st3 = Ok l' ∧ CollectionRef.sources 0 st3 = Ok l') ∧
    (∀ s l', list_remove s [box; sphere] = Some l' →
       ∃ st3, CollectionRef.remove 0 s st2 = (Ok 0, st3) ∧
              CollectionRef.sources 0 st3 = Ok l' ∧ CollectionRef.sources c2 st3 = Ok l').
Proof.
  apply (copy_shares_the_source_list store_two 0 [box; sphere]).
  vm_compute. reflexivity.
Defined.

Example copy_then_remove :
  let st := CollectionRef.run
              [CollectionRef.New [Source box; Source sphere];
               CollectionRef.Copy 0; CollectionRef.Remove 1 box] in
  CollectionRef.sources 0 st = Ok [sphere] ∧ CollectionRef.sources 1 st = Ok [sphere].
Proof. vm_compute. done. Qed.

(** X18.  [add] on a copy (and an assignment to its [sources]) binds a
    new list and leaves the original as it was; from then on [remove] on
    the copy no longer changes the original. *)
Theorem add_gives_the_copy_a_list_of_its_own st c l c2 st2 srcs :
  CollectionRef.sources c st = Ok l →
  CollectionRef.copy c st = (Ok c2, st2) →
  ∃ st3,
    CollectionRef.add c2 srcs st2 = (Ok c2, st3) ∧
    CollectionRef.sources c st3 = Ok l ∧
    CollectionRef.sources c2 st3 =
      Ok (check_duplicates (l ++ format_obj_input (CollectionRef.heap_of st2) srcs)) ∧
    (∀ s, CollectionRef.sources c (CollectionRef.remove c2 s st3).2 = Ok l) ∧
    (∀ srcs', CollectionRef.sources c (CollectionRef.set_sources c2 srcs' st2) = Ok l).
Proof.
  intros Hl Hcopy. apply sources_Ok in Hl as (i & Hi & Hl).
  unfold CollectionRef.copy in Hcopy. rewrite Hi in Hcopy. injection Hcopy as <- <-.
  set (c2 := fresh (dom (CollectionRef.instances st))).
  assert (Hc2 : c2 ≠ c).
  { intros Heq. apply (is_fresh (dom (CollectionRef.instances st))).
    fold c2. rewrite Heq. by apply elem_of_dom_2 in Hi. }
  set (st2 := CollectionRef.Store _ _).
  set (a := fresh (dom (CollectionRef.lists st2))).
  assert (Ha : a ≠ CollectionRef._sources i).
  { intros Heq. apply (is_fresh (dom (CollectionRef.lists st2))).
    fold a. rewrite Heq. by apply elem_of_dom_2 in Hl. }
  assert (Hsl : CollectionRef.sources_list c2 st2 = Some l).
  { unfold CollectionRef.sources_list. cbn. by rewrite lookup_insert_eq. }
  eexists. split_and!.
  - unfold CollectionRef.add. rewrite Hsl. reflexivity.
  - apply sources_Ok. exists i. cbn. fold c2 a.
    rewrite lookup_insert_ne by done. rewrite lookup_insert_ne by done.
    rewrite lookup_insert_ne by done. done.
  - apply sources_Ok. eexists. cbn. fold c2 a. rewrite lookup_insert_eq.
    split; [done|]. cbn. by rewrite lookup_insert_eq.
  - intros s. unfold CollectionRef.remove. cbn. fold c2 a.
    rewrite lookup_insert_eq. cbn. rewrite lookup_insert_eq.
    destruct (list_remove s _); cbn.
    + apply sources_Ok. exists i. cbn. fold c2 a.
      rewrite lookup_insert_ne by done. rewrite lookup_insert_ne by done.
      split; [done|]. rewrite insert_insert_eq. by rewrite lookup_insert_ne.
    + apply sources_Ok. exists i. cbn. fold c2 a.
      rewrite lookup_insert_ne by done. rewrite lookup_insert_ne by done.
      split; [done|]. by rewrite lookup_insert_ne.
  - intros srcs'. apply sources_Ok. exists i. cbn. fold c2 a.
    rewrite lookup_insert_ne by done. rewrite lookup_insert_ne by done.
    split; [done|]. by rewrite lookup_insert_ne.
Qed.

Lemma add_gives_the_copy_a_list_of_its_own_witness :
  ∃ st3,
    CollectionRef.add 1 [Source sensor] (CollectionRef.copy 0 store_two).2 = (Ok 1, st3) ∧
    CollectionRef.sources 0 st3 = Ok [box; sphere] ∧
    CollectionRef.sources 1 st3 =
      Ok (check_duplicates
            ([box; sphere] ++
             format_obj_input (CollectionRef.heap_of (CollectionRef.copy 0 store_two).2)
               [Source sensor])) ∧
    (∀ s, CollectionRef.sources 0 (CollectionRef.remove 1 s st3).2 = Ok [box; sphere]) ∧
    (∀ srcs', CollectionRef.sources 0
                (CollectionRef.set_sources 1 srcs' (CollectionRef.copy 0 store_two).2)
              = Ok [box; sphere]).
Proof.
  apply (add_gives_the_copy_a_list_of_its_own store_two 0 [box; sphere] 1
           (CollectionRef.copy 0 store_two).2 [Source sensor]).
  - vm_compute. reflexivity.
  - vm_compute. reflexivity.
Defined.

Example copy_then_add :
  let st := CollectionRef.run
              [CollectionRef.New [Source box];
               CollectionRef.Copy 0; CollectionRef.Add 1 [Source sphere];
               CollectionRef.Remove 1 box] in
  CollectionRef.sources 0 st = Ok [box] ∧ CollectionRef.sources 1 st = Ok [sphere].
Proof. vm_compute. done. Qed.

(** ** Collections that share no list *)

Lemma new_list_unshared st self l :
  unshared st →
  unshared (CollectionRef.bind_sources self (CollectionRef.new_list l st).1
              (CollectionRef.new_list l st).2).
Proof.
  intros [Hwf Hna]. cbn. set (a := fresh (dom (CollectionRef.lists st))).
  assert (Hfresh : ∀ c i, CollectionRef.instances st !! c = Some i →
                          CollectionRef._sources i ≠ a).
  { intros c i Hi Heq. destruct (Hwf c i Hi) as [l0 Hl0].
    apply (is_fresh (dom (CollectionRef.lists st))). fold a. rewrite <- Heq.
    by apply elem_of_dom_2 in Hl0. }
  split; cbn.
  - intros c i Hi. destruct (decide (c = self)) as [->|Hne].
    + rewrite lookup_insert_eq in Hi. injection Hi as <-. cbn.
      rewrite lookup_insert_eq. by eexists.
    + rewrite lookup_insert_ne in Hi by done.
      rewrite lookup_insert_ne by (intros Heq; by apply (Hfresh c i Hi)).
      by eapply Hwf.
  - intros c1 c2 i1 i2 H1 H2 Heq.
    destruct (decide (c1 = self)) as [->|Hne1]; destruct (decide (c2 = self)) as [->|Hne2].
    + done.
    + rewrite lookup_insert_eq in H1. rewrite lookup_insert_ne in H2 by done.
      injection H1 as <-. cbn in Heq. exfalso. by apply (Hfresh c2 i2 H2).
    + rewrite lookup_insert_eq in H2. rewrite lookup_insert_ne in H1 by done.
      injection H2 as <-. cbn in Heq. exfalso. by apply (Hfresh c1 i1 H1).
    + rewrite lookup_insert_ne in H1, H2 by done. by eapply Hna.
Qed.

Lemma new_list_frame st self l c' :
  unshared st → c' ≠ self →
  CollectionRef.sources c' (CollectionRef.bind_sources self (CollectionRef.new_list l st).1
                              (CollectionRef.new_list l st).2)
    = CollectionRef.sources c' st.
Proof.
  intros [Hwf _] Hne. unfold CollectionRef.sources, CollectionRef.sources_list. cbn.
  rewrite lookup_insert_ne by done.
  destruct (CollectionRef.instances st !! c') as [i|] eqn:Hi; [|done]. cbn.
  rewrite lookup_insert_ne; [done|].
  intros Heq. destruct (Hwf c' i Hi) as [l0 Hl0].
  apply (is_fresh (dom (CollectionRef.lists st))). rewrite Heq.
  by apply elem_of_dom_2 in Hl0.
Qed.

Lemma remove_unshared st c s : unshared st → unshared (CollectionRef.remove c s st).2.
Proof.
  intros [Hwf Hna]. unfold CollectionRef.remove.
  destruct (CollectionRef.instances st !! c) as [i|] eqn:Hi; [|done].
  destruct (CollectionRef.lists st !! CollectionRef._sources i) as [l|] eqn:Hl; [|done].
  destruct (list_remove s l) as [l'|]; [|done]. split; cbn.
  - intros c0 i0 Hi0. destruct (decide (CollectionRef._sources i = CollectionRef._sources i0))
      as [Heq|Hne].
    + rewrite Heq, lookup_insert_eq. by eexists.
    + rewrite lookup_insert_ne by done. by eapply Hwf.
  - done.
Qed.

Lemma remove_frame st c s c' :
  unshared st → c' ≠ c →
  CollectionRef.sources c' (CollectionRef.remove c s st).2 = CollectionRef.sources c' st.
Proof.
  intros [_ Hna] Hne. unfold CollectionRef.remove.
  destruct (CollectionRef.instances st !! c) as [i|] eqn:Hi; [|done].
  destruct (CollectionRef.lists st !! CollectionRef._sources i) as [l|] eqn:Hl; [|done].
  destruct (list_remove s l) as [l'|]; [|done].
  unfold CollectionRef.sources, CollectionRef.sources_list. cbn.
  destruct (CollectionRef.instances st !! c') as [i'|] eqn:Hi'; [|done]. cbn.
  rewrite lookup_insert_ne; [done|].
  intros Heq. apply Hne. by eapply Hna.
Qed.

Lemma step_unshared st o :
  unshared st → CollectionRef.is_copy o = false → unshared (CollectionRef.step st o).
Proof.
  intros Hun Hcopy.
  assert (Hadd : ∀ c srcs, unshared (CollectionRef.add c srcs st).2).
  { intros c srcs. unfold CollectionRef.add.
    destruct (CollectionRef.sources_list c st); [|done]. by apply new_list_unshared. }
  destruct o as [srcs|c srcs|c srcs|c s|c s|c s|c]; cbn [CollectionRef.step].
  - by apply new_list_unshared.
  - by apply new_list_unshared.
  - apply Hadd.
  - by apply remove_unshared.
  - unfold CollectionRef.__add__. specialize (Hadd c [s]).
    by destruct (CollectionRef.add c [s] st) as [[?|?] ?].
  - unfold CollectionRef.__sub__. pose proof (remove_unshared st c s Hun) as Hrem.
    by destruct (CollectionRef.remove c s st) as [[?|?] ?].
  - discriminate Hcopy.
Qed.

Lemma run_unshared ops :
  Forall (λ o, CollectionRef.is_copy o = false) ops → unshared (CollectionRef.run ops).
Proof.
  induction ops as [|o ops IH] using rev_ind; intros Hall.
  - split; cbn; intros *; by rewrite lookup_empty.
  - apply Forall_app in Hall as [Hops Ho]. rewrite Forall_singleton in Ho.
    rewrite run_snoc. apply step_unshared; [by apply IH|done].
Qed.

Lemma step_frame st o c' :
  unshared st → c' ≠ CollectionRef.target st o →
  CollectionRef.sources c' (CollectionRef.step st o) = CollectionRef.sources c' st.
Proof.
  intros Hun Hne.
  assert (Hadd : ∀ c srcs, c' ≠ c →
            CollectionRef.sources c' (CollectionRef.add c srcs st).2
              = CollectionRef.sources c' st).
  { intros c srcs Hc. unfold CollectionRef.add.
    destruct (CollectionRef.sources_list c st); [|done]. by apply new_list_frame. }
  destruct o as [srcs|c srcs|c srcs|c s|c s|c s|c]; cbn [CollectionRef.step CollectionRef.target] in *.
  - by apply new_list_frame.
  - by apply new_list_frame.
  - by apply Hadd.
  - by apply remove_frame.
  - unfold CollectionRef.__add__. specialize (Hadd c [s] Hne).
    by destruct (CollectionRef.add c [s] st) as [[?|?] ?].
  - unfold CollectionRef.__sub__. pose proof (remove_frame st c s c' Hun Hne) as Hrem.
    by destruct (CollectionRef.remove c s st) as [[?|?] ?].
  - unfold CollectionRef.copy.
    destruct (CollectionRef.instances st !! c) as [i|]; [|done].
    unfold CollectionRef.sources, CollectionRef.sources_list. cbn.
    by rewrite lookup_insert_ne.
Qed.

(** X19.  As long as [copy] has not been used, an operation on one
    Collection (or the creation of one) leaves the sources of every other
    Collection as they were. *)
Theorem collections_are_separate_without_copy ops o c' :
  Forall (λ o, CollectionRef.is_copy o = false) ops →
  c' ≠ CollectionRef.target (CollectionRef.run ops) o →
  CollectionRef.sources c' (CollectionRef.step (CollectionRef.run ops) o)
    = CollectionRef.sources c' (CollectionRef.run ops).
Proof. intros Hops Hne. apply step_frame; [by apply run_unshared|done]. Qed.

Lemma collections_are_separate_without_copy_witness :
  CollectionRef.sources 1
    (CollectionRef.step
       (CollectionRef.run [CollectionRef.New [Source box]; CollectionRef.New [Source box]])
       (CollectionRef.Remove 0 box))
  = CollectionRef.sources 1
      (CollectionRef.run [CollectionRef.New [Source box]; CollectionRef.New [Source box]]).
Proof.
  apply (collections_are_separate_without_copy
           [CollectionRef.New [Source box]; CollectionRef.New [Source box]]
           (CollectionRef.Remove 0 box) 1).
  - repeat constructor.
  - vm_compute. lia.
Defined.

(** ** The two models *)

Lemma heap_of_lookup st c :
  CollectionRef.heap_of st !! c =
    (CollectionRef.instances st !! c) ≫=
      (λ i, Instance_ <$> CollectionRef.lists st !! CollectionRef._sources i).
Proof. unfold CollectionRef.heap_of. apply lookup_omap. Qed.

Lemma heap_of_sources_list st c :
  CollectionRef.heap_of st !! c = Instance_ <$> CollectionRef.sources_list c st.
Proof.
  rewrite heap_of_lookup. unfold CollectionRef.sources_list.
  by destruct (CollectionRef.instances st !! c).
Qed.

Lemma dom_heap_of st :
  unshared st → dom (CollectionRef.heap_of st) = dom (CollectionRef.instances st).
Proof.
  intros [Hwf _]. apply set_eq. intros c. rewrite !elem_of_dom, heap_of_lookup.
  destruct (CollectionRef.instances st !! c) as [i|] eqn:Hi; cbn.
  - destruct (Hwf c i Hi) as [l ->]. cbn. split; by eexists.
  - split; intros [? ?]; done.
Qed.

Lemma heap_of_new_list st self l :
  unshared st →
  CollectionRef.heap_of (CollectionRef.bind_sources self (CollectionRef.new_list l st).1
                           (CollectionRef.new_list l st).2)
    = <[self := Instance_ l]> (CollectionRef.heap_of st).
Proof.
  intros [Hwf _]. apply map_eq. intros c. rewrite heap_of_lookup. cbn.
  destruct (decide (c = self)) as [->|Hne].
  - rewrite !lookup_insert_eq. cbn. by rewrite lookup_insert_eq.
  - rewrite !lookup_insert_ne by done. rewrite heap_of_lookup.
    destruct (CollectionRef.instances st !! c) as [i|] eqn:Hi; [|done]. cbn.
    rewrite lookup_insert_ne; [done|].
    intros Heq. destruct (Hwf c i Hi) as [l0 Hl0].
    apply (is_fresh (dom (CollectionRef.lists st))). rewrite Heq.
    by apply elem_of_dom_2 in Hl0.
Qed.

Lemma heap_of_add st c srcs :
  unshared st →
  (CollectionRef.add c srcs st).1 = (add c srcs (CollectionRef.heap_of st)).1 ∧
  CollectionRef.heap_of (CollectionRef.add c srcs st).2
    = (add c srcs (CollectionRef.heap_of st)).2.
Proof.
  intros Hun. unfold CollectionRef.add, add. rewrite (heap_of_sources_list st c).
  destruct (CollectionRef.sources_list c st) as [l|]; [|done].
  split; [done|]. by apply (heap_of_new_list st c).
Qed.

Lemma heap_of_remove st c s :
  unshared st →
  (CollectionRef.remove c s st).1 = (remove c s (CollectionRef.heap_of st)).1 ∧
  CollectionRef.heap_of (CollectionRef.remove c s st).2
    = (remove c s (CollectionRef.heap_of st)).2.
Proof.
  intros [Hwf Hna]. unfold CollectionRef.remove, remove. rewrite (heap_of_lookup st c).
  destruct (CollectionRef.instances st !! c) as [i|] eqn:Hi; cbn; [|done].
  destruct (CollectionRef.lists st !! CollectionRef._sources i) as [l|] eqn:Hl; cbn.
  2: { by destruct (Hwf c i Hi) as [? ?]. }
  destruct (list_remove s l) as [l'|]; [|done]. split; [done|]. cbn [snd].
  apply map_eq. intros c'. rewrite heap_of_lookup. cbn.
  destruct (decide (c' = c)) as [->|Hne].
  - rewrite Hi, lookup_insert_eq. cbn. by rewrite lookup_insert_eq.
  - rewrite lookup_insert_ne by done. rewrite heap_of_lookup.
    destruct (CollectionRef.instances st !! c') as [i'|] eqn:Hi'; [|done]. cbn.
    rewrite lookup_insert_ne; [done|]. intros Heq. apply Hne. symmetry. by eapply Hna.
Qed.

Lemma heap_of_step st o :
  unshared st → CollectionRef.is_copy o = false →
  CollectionRef.heap_of (CollectionRef.step st o) = step_by_value (CollectionRef.heap_of st) o.
Proof.
  intros Hun Hcopy.
  destruct o as [srcs|c srcs|c srcs|c s|c s|c s|c];
    cbn [CollectionRef.step step_by_value].
  - unfold CollectionRef.__init__, __init__. cbn [snd].
    rewrite dom_heap_of by done. by apply heap_of_new_list.
  - by apply heap_of_new_list.
  - by apply heap_of_add.
  - by apply heap_of_remove.
  - unfold CollectionRef.__add__, __add__.
    destruct (heap_of_add st c [s] Hun) as [H1 H2].
    destruct (CollectionRef.add c [s] st) as [[?|?] ?];
      destruct (add c [s] (CollectionRef.heap_of st)) as [[?|?] ?]; by simplify_eq/=.
  - unfold CollectionRef.__sub__, __sub__.
    destruct (heap_of_remove st c s Hun) as [H1 H2].
    destruct (CollectionRef.remove c s st) as [[?|?] ?];
      destruct (remove c s (CollectionRef.heap_of st)) as [[?|?] ?]; by simplify_eq/=.
  - discriminate Hcopy.
Qed.

(** Without [copy] the two models agree: the heap of list values that the
    by-reference store stands for is the one the by-value operations
    compute. *)
Lemma by_value_agrees ops :
  Forall (λ o, CollectionRef.is_copy o = false) ops →
  CollectionRef.heap_of (CollectionRef.run ops) = foldl step_by_value ∅ ops.
Proof.
  induction ops as [|o ops IH] using rev_ind; intros Hall.
  - apply map_eq. intros c. rewrite heap_of_lookup. cbn. by rewrite !lookup_empty.
  - apply Forall_app in Hall as [Hops Ho]. rewrite Forall_singleton in Ho.
    rewrite run_snoc, foldl_app. cbn [foldl]. rewrite <- IH by done.
    apply heap_of_step; [by apply run_unshared|done].
Qed.

Lemma sources_heap_of st c :
  sources c (CollectionRef.heap_of st) = CollectionRef.sources c st.
Proof.
  unfold sources, CollectionRef.sources. rewrite heap_of_sources_list.
  by destruct (CollectionRef.sources_list c st).
Qed.

(** ** The methods that call every source *)

Section path_methods_facts.

Context {state : Type}.
Variable call : Collection.obj → CollectionRef.method_call → state → result unit * state.

Lemma for_sources_applied l m w :
  NoDup l →
  applied_in_order call m l w () (CollectionRef.for_sources state call l m w).
Proof.
  revert w. induction l as [|s l IH]; intros w Hnd.
  - exists [], []. cbn. split_and!; [done| | |done].
    + intros s Hs. by apply elem_of_nil in Hs.
    + done.
  - apply NoDup_cons in Hnd as [Hs Hnd]. cbn [CollectionRef.for_sources].
    destruct (call s m (w s)) as [[[]|e] x] eqn:Hcall.
    + destruct (IH (<[s := x]> w) Hnd) as (visited & rest & Hl & Hdone & Hframe & Hrest).
      assert (Hsd : s ∉ visited). { intros Hin. apply Hs. rewrite Hl. apply elem_of_app. by left. }
      assert (Hsr : head rest ≠ Some s).
      { intros Hh. apply Hs. rewrite Hl. apply elem_of_app. right.
        destruct rest; simplify_eq/=. apply list_elem_of_here. }
      exists (s :: visited), rest. split_and!.
      * by rewrite Hl.
      * intros s0 Hs0. apply elem_of_cons in Hs0 as [->|Hs0].
        -- exists x. split; [done|]. rewrite (Hframe s Hsd Hsr). apply fn_lookup_insert.
        -- destruct (Hdone s0 Hs0) as (x0 & Hc0 & Hx0).
           rewrite fn_lookup_insert_ne in Hc0 by (by intros ->). by exists x0.
      * intros s0 Hs0 Hh. apply not_elem_of_cons in Hs0 as [Hne Hs0].
        rewrite (Hframe s0 Hs0 Hh). by apply fn_lookup_insert_ne.
      * destruct rest as [|s' rest]; [done|].
        destruct Hrest as (e & x' & Hc' & Hr & Hx').
        rewrite fn_lookup_insert_ne in Hc'; [by exists e, x'|].
        intros ->. by apply Hsr.
    + exists [], (s :: l). split_and!; [done| | |].
      * intros s0 Hs0. by apply elem_of_nil in Hs0.
      * intros s0 _ Hh. cbn in *. apply fn_lookup_insert_ne. by intros ->.
      * exists e, x. split_and!; [done..|]. cbn. apply fn_lookup_insert.
Qed.

Lemma for_self_applied self m st w l :
  CollectionRef.sources_list self st = Some l → NoDup l →
  applied_in_order call m l w self (CollectionRef.for_self state call self m st w).
Proof.
  intros Hl Hnd. unfold CollectionRef.for_self. rewrite Hl.
  destruct (for_sources_applied l m w Hnd) as (visited & rest & Hsplit & Hdone & Hframe & Hrest).
  exists visited, rest.
  destruct (CollectionRef.for_sources state call l m w) as [[[]|e] w'] eqn:Hfor;
    destruct rest as [|s rest]; cbn [fst snd] in *; split_and!; try done.
  - by destruct Hrest as (? & ? & ? & ? & ?).
  - destruct Hrest as (e' & x & Hcall & [= ->] & Hx). by exists e', x.
Qed.

(** X20.  [move], [rotate], [rotate_from_angax] and [reset_path] call the
    method of the same name on the sources in order, with the arguments
    given and the defaults [start=-1], [increment=False], [anchor=None],
    [degree=True]: in a Collection without duplicates every source is
    called once, from the state it had before; the first call that raises
    ends the loop with its exception, the sources before it stay changed
    and those after it are not touched; otherwise the Collection is
    returned.  Objects that are not in the Collection are not touched. *)
Theorem path_methods_visit_every_source self st w l :
  CollectionRef.sources_list self st = Some l → NoDup l →
  (∀ displacement start increment,
     applied_in_order call
       (CollectionRef.s_move displacement (default (PyInt (-1)) start)
          (default (PyBool false) increment)) l w self
       (CollectionRef.move state call self displacement start increment st w)) ∧
  (∀ rot anchor start increment,
     applied_in_order call
       (CollectionRef.s_rotate rot (default PyNone anchor) (default (PyInt (-1)) start)
          (default (PyBool false) increment)) l w self
       (CollectionRef.rotate state call self rot anchor start increment st w)) ∧
  (∀ angle axis anchor start increment degree,
     applied_in_order call
       (CollectionRef.s_rotate_from_angax angle axis (default PyNone anchor)
          (default (PyInt (-1)) start) (default (PyBool false) increment)
          (default (PyBool true) degree)) l w self
       (CollectionRef.rotate_from_angax state call self angle axis anchor start increment
          degree st w)) ∧
  applied_in_order call CollectionRef.s_reset_path l w self
    (CollectionRef.reset_path state call self st w).
Proof.
  intros Hl Hnd. split_and!; intros; by apply for_self_applied.
Qed.

Lemma for_self_copy st c c2 st2 m w :
  CollectionRef.copy c st = (Ok c2, st2) →
  (CollectionRef.for_self state call c2 m st2 w).2
    = (CollectionRef.for_self state call c m st2 w).2 ∧
  ((CollectionRef.for_self state call c2 m st2 w).1 = Ok c2 ↔
   (CollectionRef.for_self state call c m st2 w).1 = Ok c).
Proof.
  intros Hcopy. destruct (copy_sources_list _ _ _ _ Hcopy) as [H2 H1].
  unfold CollectionRef.for_self. rewrite H2, H1.
  destruct (CollectionRef.sources_list c st) as [l|]; [|done].
  by destruct (CollectionRef.for_sources state call l m w) as [[?|?] ?].
Qed.

(** X21.  A copy holds the source objects of its original: [move],
    [rotate], [rotate_from_angax] and [reset_path] on the copy change the
    sources exactly as the same call on the original does. *)
Theorem moving_a_copy_moves_the_sources_of_the_original st c c2 st2 w :
  CollectionRef.copy c st = (Ok c2, st2) →
  (∀ displacement start increment,
     (CollectionRef.move state call c2 displacement start increment st2 w).2
       = (CollectionRef.move state call c displacement start increment st2 w).2) ∧
  (∀ rot anchor start increment,
     (CollectionRef.rotate state call c2 rot anchor start increment st2 w).2
       = (CollectionRef.rotate state call c rot anchor start increment st2 w).2) ∧
  (∀ angle axis anchor start increment degree,
     (CollectionRef.rotate_from_angax state call c2 angle axis anchor start increment
        degree st2 w).2
       = (CollectionRef.rotate_from_angax state call c angle axis anchor start increment
            degree st2 w).2) ∧
  (CollectionRef.reset_path state call c2 st2 w).2
    = (CollectionRef.reset_path state call c st2 w).2.
Proof.
  intros Hcopy. split_and!; intros; exact (proj1 (for_self_copy _ _ _ _ _ _ Hcopy)).
Qed.

End path_methods_facts.

Lemma path_methods_visit_every_source_witness :
  (∀ displacement start increment,
     applied_in_order count_calls
       (CollectionRef.s_move displacement (default (PyInt (-1)) start)
          (default (PyBool false) increment)) [box; sphere] (λ _, 0) 0
       (CollectionRef.move nat count_calls 0 displacement start increment store_two (λ _, 0))) ∧
  (∀ rot anchor start increment,
     applied_in_order count_calls
       (CollectionRef.s_rotate rot (default PyNone anchor) (default (PyInt (-1)) start)
          (default (PyBool false) increment)) [box; sphere] (λ _, 0) 0
       (CollectionRef.rotate nat count_calls 0 rot anchor start increment store_two (λ _, 0))) ∧
  (∀ angle axis anchor start increment degree,
     applied_in_order count_calls
       (CollectionRef.s_rotate_from_angax angle axis (default PyNone anchor)
          (default (PyInt (-1)) start) (default (PyBool false) increment)
          (default (PyBool true) degree)) [box; sphere] (λ _, 0) 0
       (CollectionRef.rotate_from_angax nat count_calls 0 angle axis anchor start increment
          degree store_two (λ _, 0))) ∧
  applied_in_order count_calls CollectionRef.s_reset_path [box; sphere] (λ _, 0) 0
    (CollectionRef.reset_path nat count_calls 0 store_two (λ _, 0)).
Proof.
  apply (path_methods_visit_every_source count_calls 0 store_two (λ _, 0) [box; sphere]).
  - vm_compute. reflexivity.
  - repeat (apply NoDup_cons_2; [rewrite ?not_elem_of_cons, ?elem_of_nil; naive_solver|]).
    apply NoDup_nil_2.
Defined.

Example move_stops_at_the_first_error :
  let st := CollectionRef.run [CollectionRef.New [Source box; Source sphere];
                               CollectionRef.Add 0 [Source sensor; Source (Obj 3 "Dipole")]] in
  let r := CollectionRef.move nat count_calls 0 (PyArr (vec3 1 0 0)) None None st (λ _, 0) in
  r.1 = Raise TypeError ∧ r.2 box = 1 ∧ r.2 sphere = 1 ∧ r.2 sensor = 0 ∧
  r.2 (Obj 3 "Dipole") = 0.
Proof. vm_compute. done. Qed.

Lemma moving_a_copy_moves_the_sources_of_the_original_witness :
  (∀ displacement start increment,
     (CollectionRef.move nat count_calls 1 displacement start increment
        (CollectionRef.copy 0 store_two).2 (λ _, 0)).2
       = (CollectionRef.move nat count_calls 0 displacement start increment
            (CollectionRef.copy 0 store_two).2 (λ _, 0)).2) ∧
  (∀ rot anchor start increment,
     (CollectionRef.rotate nat count_calls 1 rot anchor start increment
        (CollectionRef.copy 0 store_two).2 (λ _, 0)).2
       = (CollectionRef.rotate nat count_calls 0 rot anchor start increment
            (CollectionRef.copy 0 store_two).2 (λ _, 0)).2) ∧
  (∀ angle axis anchor start increment degree,
     (CollectionRef.rotate_from_angax nat count_calls 1 angle axis anchor start increment
        degree (CollectionRef.copy 0 store_two).2 (λ _, 0)).2
       = (CollectionRef.rotate_from_angax nat count_calls 0 angle axis anchor start increment
            degree (CollectionRef.copy 0 store_two).2 (λ _, 0)).2) ∧
  (CollectionRef.reset_path nat count_calls 1 (CollectionRef.copy 0 store_two).2 (λ _, 0)).2
    = (CollectionRef.reset_path nat count_calls 0 (CollectionRef.copy 0 store_two).2 (λ _, 0)).2.
Proof.
  apply (moving_a_copy_moves_the_sources_of_the_original count_calls store_two 0 1
           (CollectionRef.copy 0 store_two).2 (λ _, 0)).
  vm_compute. reflexivity.
Defined.
